(** * ai-receptionist: the turn-taking core of [server.js]

    A shallow embedding of the per-connection closure of [server.js]
    (the variables [conversationHistory], [isAiSpeaking], [isInterrupted],
    the functions [interruptAi] and [processTranscript], the recognizer's
    ['data'] handler, the socket handlers and the greeting), followed by
    the properties of the turn controller and response pipeline.

    JavaScript runs each handler, and each stretch of an [async] function
    between two [await]s, to completion.  The embedding therefore has one
    atomic step per handler invocation and per resumption of a suspended
    [async] function; the suspended invocations are kept in the session
    state together with the point at which they wait. *)

From Stdlib Require Import NArith String Ascii.
From stdpp Require Import base tactics option list.

Local Open Scope list_scope.

(* ===================================================================== *)
(** ** JavaScript strings *)
(* ===================================================================== *)

Module JS.

(** A JavaScript string is a sequence of UTF-16 code units. *)
Definition jsstring := list N.

(** An ASCII literal as a JavaScript string. *)
Definition str (s : string) : jsstring :=
  map N_of_ascii (list_ascii_of_string s).

Section CodeUnits.
Local Open Scope N_scope.

(** ECMAScript [WhiteSpace]: TAB, VT, FF, ZWNBSP and the space separators. *)
Definition isWhiteSpace (c : N) : bool :=
  (c =? 9) || (c =? 11) || (c =? 12) || (c =? 32) || (c =? 160)
  || (c =? 5760) || ((8192 <=? c) && (c <=? 8202))
  || (c =? 8239) || (c =? 8287) || (c =? 12288) || (c =? 65279).

(** ECMAScript [LineTerminator]: LF, CR, LS, PS. *)
Definition isLineTerminator (c : N) : bool :=
  (c =? 10) || (c =? 13) || (c =? 8232) || (c =? 8233).

End CodeUnits.

(** The code units [String.prototype.trim] strips. *)
Definition isStripped (c : N) : bool := isWhiteSpace c || isLineTerminator c.

Fixpoint trimStart (s : jsstring) : jsstring :=
  match s with
  | [] => []
  | c :: s' => if isStripped c then trimStart s' else s
  end.

Definition trimEnd (s : jsstring) : jsstring := rev (trimStart (rev s)).

(** [String.prototype.trim]. *)
Definition trim (s : jsstring) : jsstring := trimEnd (trimStart s).

(** [ToBoolean] of a string: the empty string is the only falsy one. *)
Definition truthy (s : jsstring) : bool :=
  match s with [] => false | _ :: _ => true end.

(** [ToBoolean] of a value that is a string or [undefined]. *)
Definition truthy_opt (v : option jsstring) : bool :=
  match v with None => false | Some s => truthy s end.

(** [ToBoolean] of a value that is a boolean or [undefined]. *)
Definition truthy_flag (v : option bool) : bool :=
  match v with Some true => true | _ => false end.

End JS.
Import JS.

(* ===================================================================== *)
(** ** Data *)
(* ===================================================================== *)

(** What the recognizer hands to the ['data'] handler: [data.results], each
    result with its [alternatives] and its [isFinal] field. *)
Record alternative := Alternative { transcript : jsstring }.
Record recognition := Recognition {
  alternatives : list alternative;
  isFinal : bool }.
Record data := Data { results : list recognition }.

(** [data.results[0]?.alternatives[0]?.transcript] *)
Definition dataTranscript (d : data) : option jsstring :=
  match results d with
  | [] => None
  | r :: _ =>
      match alternatives r with
      | [] => None
      | a :: _ => Some (transcript a)
      end
  end.

(** [data.results[0]?.isFinal] *)
Definition dataIsFinal (d : data) : option bool :=
  match results d with
  | [] => None
  | r :: _ => Some (isFinal r)
  end.

(** An entry of [conversationHistory]: [{ role, content }]. *)
Inductive role := user | assistant.
Record message := Message { msgRole : role; content : jsstring }.

(** An audio payload ([audioContent]) is an opaque byte sequence. *)
Definition audio := list Byte.byte.

(** What [ws.send] is given: the stop command or an audio payload. *)
Inductive frame :=
| StopPlaying
| Audio (payload : audio).

(** The outcome of an awaited promise. *)
Inductive settled (A : Type) :=
| Fulfilled (v : A)
| Rejected.
Arguments Fulfilled {A} v.
Arguments Rejected {A}.

(** Where a [processTranscript] invocation stands: suspended at the
    [await getClaudeResponse(...)], suspended at the
    [await textToSpeechClient.synthesizeSpeech(...)] (with its local
    [claudeResponse]), or returned. *)
Inductive turn :=
| AwaitClaude
| AwaitSynth (claudeResponse : jsstring)
| Returned.

(** Where the greeting of lines 139-144 stands: [sendInitialGreeting]
    suspended at its [await], its promise settled with the [.then]
    callback still to run, or all done. *)
Inductive greetingState :=
| GreetingSynth
| GreetingSettled
| GreetingDone.

(** The closure of one connection.  [wsOpen] is
    [ws.readyState === WebSocket.OPEN]; [streamLive] says that
    [recognizeStream] has not been destroyed; [turns] is the table of
    [processTranscript] invocations that got past the guard of line 52, in
    the order they were started. *)
Record session := Session {
  conversationHistory : list message;
  isAiSpeaking : bool;
  isInterrupted : bool;
  wsOpen : bool;
  streamLive : bool;
  greeting : greetingState;
  turns : list turn }.

(** What a step does to the world outside the closure, plus the pushes
    onto [conversationHistory]. *)
Inductive effect :=
| Push (m : message)                (* conversationHistory.push(m) *)
| Send (f : frame)                  (* ws.send(f) *)
| CallClaude (history : list message) (* anthropic.messages.create *)
| CallSynth (text : jsstring)       (* textToSpeechClient.synthesizeSpeech *)
| StreamWrite (chunk : audio)       (* recognizeStream.write *)
| StreamDestroy                     (* recognizeStream.destroy *)
| ConsoleError.                     (* console.error *)

#[global] Instance greetingState_eq_dec : EqDecision greetingState.
Proof. solve_decision. Defined.

(* ===================================================================== *)
(** ** Commands: state passing with an effect log *)
(* ===================================================================== *)

Definition cmd := session -> session * list effect.

Definition skip : cmd := fun s => (s, []).

Definition emit (e : effect) : cmd := fun s => (s, [e]).

Definition modify (f : session -> session) : cmd := fun s => (f s, []).

Definition andThen (c1 c2 : cmd) : cmd := fun s =>
  let '(s1, e1) := c1 s in
  let '(s2, e2) := c2 s1 in
  (s2, e1 ++ e2).

Definition ifS (b : session -> bool) (c1 c2 : cmd) : cmd := fun s =>
  if b s then c1 s else c2 s.

Definition when (b : session -> bool) (c : cmd) : cmd := ifS b c skip.

Declare Scope cmd_scope.
Delimit Scope cmd_scope with cmd.
Bind Scope cmd_scope with cmd.
Notation "c1 ;; c2" := (andThen c1 c2)
  (at level 100, c2 at level 200, right associativity) : cmd_scope.
Local Open Scope cmd_scope.

(** Field assignments. *)
Definition set_isAiSpeaking (b : bool) (s : session) : session :=
  {| conversationHistory := conversationHistory s; isAiSpeaking := b;
     isInterrupted := isInterrupted s; wsOpen := wsOpen s;
     streamLive := streamLive s; greeting := greeting s; turns := turns s |}.

Definition set_isInterrupted (b : bool) (s : session) : session :=
  {| conversationHistory := conversationHistory s;
     isAiSpeaking := isAiSpeaking s; isInterrupted := b; wsOpen := wsOpen s;
     streamLive := streamLive s; greeting := greeting s; turns := turns s |}.

Definition set_wsOpen (b : bool) (s : session) : session :=
  {| conversationHistory := conversationHistory s;
     isAiSpeaking := isAiSpeaking s; isInterrupted := isInterrupted s;
     wsOpen := b; streamLive := streamLive s; greeting := greeting s;
     turns := turns s |}.

Definition set_streamLive (b : bool) (s : session) : session :=
  {| conversationHistory := conversationHistory s;
     isAiSpeaking := isAiSpeaking s; isInterrupted := isInterrupted s;
     wsOpen := wsOpen s; streamLive := b; greeting := greeting s;
     turns := turns s |}.

Definition set_greeting (g : greetingState) (s : session) : session :=
  {| conversationHistory := conversationHistory s;
     isAiSpeaking := isAiSpeaking s; isInterrupted := isInterrupted s;
     wsOpen := wsOpen s; streamLive := streamLive s; greeting := g;
     turns := turns s |}.

Definition set_history (h : list message) (s : session) : session :=
  {| conversationHistory := h; isAiSpeaking := isAiSpeaking s;
     isInterrupted := isInterrupted s; wsOpen := wsOpen s;
     streamLive := streamLive s; greeting := greeting s; turns := turns s |}.

Definition set_turns (t : list turn) (s : session) : session :=
  {| conversationHistory := conversationHistory s;
     isAiSpeaking := isAiSpeaking s; isInterrupted := isInterrupted s;
     wsOpen := wsOpen s; streamLive := streamLive s; greeting := greeting s;
     turns := t |}.

(** [conversationHistory.push(m)] *)
Definition push (m : message) : cmd :=
  modify (fun s => set_history (conversationHistory s ++ [m]) s) ;;
  emit (Push m).

(** [if (ws.readyState === WebSocket.OPEN) ws.send(f)] *)
Definition sendIfOpen (f : frame) : cmd :=
  when wsOpen (emit (Send f)).

(** A [processTranscript] invocation reaches its first [await]. *)
Definition suspendNew (t : turn) : cmd :=
  modify (fun s => set_turns (turns s ++ [t]) s).

(** Invocation [i] moves to another suspension point, or returns. *)
Definition moveTo (i : nat) (t : turn) : cmd :=
  modify (fun s => set_turns (<[i := t]> (turns s)) s).

(* ===================================================================== *)
(** ** The closure's functions *)
(* ===================================================================== *)

(** [interruptAi], lines 40-49. *)
Definition interruptAi : cmd :=
  when isAiSpeaking
    (modify (set_isAiSpeaking false) ;;
     modify (set_isInterrupted true) ;;
     sendIfOpen StopPlaying).

(** The call [getClaudeResponse(conversationHistory, servicesData)]: the
    request carries the history as it is when the call is made. *)
Definition callClaude : cmd := fun s =>
  (s, [CallClaude (conversationHistory s)]).

(** [processTranscript], lines 51-59: from the call to the first [await]. *)
Definition processTranscript (transcript : jsstring) : cmd :=
  if negb (truthy (trim transcript)) then skip
  else
    push (Message user transcript) ;;
    modify (set_isAiSpeaking true) ;;
    callClaude ;;
    suspendNew AwaitClaude.

(** The [catch] block of [processTranscript], lines 86-89. *)
Definition catchBlock (i : nat) : cmd :=
  emit ConsoleError ;;
  modify (set_isAiSpeaking false) ;;
  moveTo i Returned.

(** [processTranscript], lines 59-76: invocation [i] resumes when
    [getClaudeResponse] settles and runs to the second [await]. *)
Definition afterClaude (i : nat) (r : settled jsstring) : cmd :=
  match r with
  | Rejected => catchBlock i
  | Fulfilled claudeResponse =>
      ifS (fun s => negb (isAiSpeaking s))
        (moveTo i Returned)
        (push (Message assistant claudeResponse) ;;
         emit (CallSynth claudeResponse) ;;
         moveTo i (AwaitSynth claudeResponse))
  end.

(** [processTranscript], lines 69-85: invocation [i] resumes when
    [synthesizeSpeech] settles and runs to its end. *)
Definition afterSynth (i : nat) (r : settled audio) : cmd :=
  match r with
  | Rejected => catchBlock i
  | Fulfilled audioContent =>
      ifS (fun s => negb (isAiSpeaking s))
        (moveTo i Returned)
        (sendIfOpen (Audio audioContent) ;;
         moveTo i Returned)
  end.

(** The recognizer's ['data'] handler, lines 102-124. *)
Definition onData (d : data) : cmd :=
  let transcript := dataTranscript d in
  let isFinal := truthy_flag (dataIsFinal d) in
  match transcript with
  | None => skip
  | Some t =>
      if negb (truthy t) then skip
      else
        when isAiSpeaking interruptAi ;;
        ifS isInterrupted
          (if isFinal
           then modify (set_isInterrupted false) ;; processTranscript t
           else skip)
          (if isFinal then processTranscript t else skip)
  end.

(** [ws.on('message', ...)], lines 126-130. *)
Definition onMessage (chunk : audio) : cmd := emit (StreamWrite chunk).

(** [ws.on('close', ...)], lines 132-137. *)
Definition onClose : cmd :=
  emit StreamDestroy ;; modify (set_streamLive false).

Definition greetingText : jsstring :=
  str "Welcome to the Ministry of Detailing! How can I help you today?".

(** [sendInitialGreeting], lines 177-195, from its [await] on. *)
Definition afterGreetingSynth (r : settled audio) : cmd :=
  match r with
  | Rejected => emit ConsoleError
  | Fulfilled audioContent => sendIfOpen (Audio audioContent)
  end ;;
  modify (set_greeting GreetingSettled).

(** The [.then] callback of lines 140-144. *)
Definition greetingThen : cmd :=
  when isAiSpeaking (modify (set_isAiSpeaking false)) ;;
  modify (set_greeting GreetingDone).

(** The variables of lines 35-38 as the ['connection'] handler declares
    them, on an open socket with a live recognizer stream. *)
Definition declared : session :=
  {| conversationHistory := []; isAiSpeaking := false;
     isInterrupted := false; wsOpen := true; streamLive := true;
     greeting := GreetingSynth; turns := [] |}.

(** The end of the ['connection'] handler, lines 139-140: the flag is set
    and [sendInitialGreeting] runs to its [await]. *)
Definition onConnection : cmd :=
  modify (set_isAiSpeaking true) ;; emit (CallSynth greetingText).

Definition connection : session := fst (onConnection declared).

(* ===================================================================== *)
(** ** Steps of a session *)
(* ===================================================================== *)

(** What the event loop can run next. *)
Inductive event :=
| RecognizeData (d : data)
| RecognizeError
| ClaudeSettled (i : nat) (r : settled jsstring)
| SynthSettled (i : nat) (r : settled audio)
| GreetingSynthSettled (r : settled audio)
| GreetingThen
| WsMessage (chunk : audio)
| WsLeavesOpen
| WsClose.

(** One step; [None] when the event cannot happen in the state: a
    destroyed stream emits no data, a promise settles once, and ['close']
    is emitted once, on a socket that is no longer open.  Nothing else
    constrains the order of events: a handler may run between any two
    resumptions. *)
Definition step (s : session) (ev : event) : option (session * list effect) :=
  match ev with
  | RecognizeData d =>
      if streamLive s then Some (onData d s) else None
  | RecognizeError =>
      if streamLive s then Some (emit ConsoleError s) else None
  | ClaudeSettled i r =>
      match turns s !! i with
      | Some AwaitClaude => Some (afterClaude i r s)
      | _ => None
      end
  | SynthSettled i r =>
      match turns s !! i with
      | Some (AwaitSynth _) => Some (afterSynth i r s)
      | _ => None
      end
  | GreetingSynthSettled r =>
      match greeting s with
      | GreetingSynth => Some (afterGreetingSynth r s)
      | _ => None
      end
  | GreetingThen =>
      match greeting s with
      | GreetingSettled => Some (greetingThen s)
      | _ => None
      end
  | WsMessage chunk => Some (onMessage chunk s)
  | WsLeavesOpen =>
      if wsOpen s then Some (modify (set_wsOpen false) s) else None
  | WsClose =>
      if negb (wsOpen s) && streamLive s then Some (onClose s) else None
  end.

(** A run: the events in order, with the effects of all steps. *)
Fixpoint run (s : session) (evs : list event)
  : option (session * list effect) :=
  match evs with
  | [] => Some (s, [])
  | ev :: evs' =>
      match step s ev with
      | None => None
      | Some (s1, e1) =>
          match run s1 evs' with
          | None => None
          | Some (s2, e2) => Some (s2, e1 ++ e2)
          end
      end
  end.

(** The states a session can be in between two steps. *)
Inductive reachable : session -> Prop :=
| reachable_connection : reachable connection
| reachable_step s ev s' e :
    reachable s -> step s ev = Some (s', e) -> reachable s'.

(* ===================================================================== *)
(** ** Views of the state *)
(* ===================================================================== *)

(** The controller states of the specification, read off the two flags
    in the order the ['data'] handler tests them. *)
Inductive controller := Idle | AgentSpeaking | Interrupted.

Definition controllerState (s : session) : controller :=
  if isAiSpeaking s then AgentSpeaking
  else if isInterrupted s then Interrupted
  else Idle.

(** The entries pushed onto the history by a list of effects. *)
Definition pushes (es : list effect) : list message :=
  omap (fun e => match e with Push m => Some m | _ => None end) es.

(** The frames sent on the socket by a list of effects. *)
Definition sends (es : list effect) : list frame :=
  omap (fun e => match e with Send f => Some f | _ => None end) es.

(** The audio payloads among the frames sent. *)
Definition audioSent (es : list effect) : list audio :=
  omap (fun e => match e with Send (Audio a) => Some a | _ => None end) es.

(** The stop commands among the frames sent. *)
Definition isStop (f : frame) : bool :=
  match f with StopPlaying => true | Audio _ => false end.

Definition stopsSent (es : list effect) : nat :=
  length (List.filter isStop (sends es)).

(** An invocation that is past its language-model call and has not
    returned. *)
Definition pastStage1 (t : turn) : bool :=
  match t with AwaitSynth _ => true | _ => false end.

Definition activePastStage1 (s : session) : nat :=
  length (List.filter pastStage1 (turns s)).

(** Events with one result and one alternative, partial and final. *)
Definition partialData (t : string) : data :=
  Data [Recognition [Alternative (str t)] false].
Definition finalData (t : string) : data :=
  Data [Recognition [Alternative (str t)] true].

(* ===================================================================== *)
(** ** Notions the properties are stated with *)
(* ===================================================================== *)

(** The two flags are not both set. *)
Definition exclusive (s : session) : Prop :=
  isAiSpeaking s && isInterrupted s = false.

(** The session right after the caller's first sound cut the greeting
    short. *)
Definition greetingInterrupted : session :=
  fst (onData (partialData "wait") connection).

(** A transcript the controller has no use for: absent, empty, or with
    nothing left after [trim]. *)
Definition unusable (v : option jsstring) : Prop :=
  match v with
  | None => True
  | Some t => truthy (trim t) = false
  end.

(** The session once a turn for [transcript] has started: the utterance
    is on the history, the flag is up, and a new invocation waits for the
    language model. *)
Definition turnStarted (transcript : jsstring) (s : session) : session :=
  {| conversationHistory :=
       conversationHistory s ++ [Message user transcript];
     isAiSpeaking := true; isInterrupted := false; wsOpen := wsOpen s;
     streamLive := streamLive s; greeting := greeting s;
     turns := turns s ++ [AwaitClaude] |}.

(** The ['data'] handler run on a sequence of events with nothing in
    between: the session after each event, and the effects of all. *)
Fixpoint deliver (ds : list data) (s : session)
  : list session * list effect :=
  match ds with
  | [] => ([], [])
  | d :: ds' =>
      let '(s1, e1) := onData d s in
      let '(ss, e2) := deliver ds' s1 in
      (s1 :: ss, e1 ++ e2)
  end.

(** How often a sequence of states, entered from [prev], goes from a
    state satisfying [from] to one satisfying [to]. *)
Fixpoint crossings {A : Type} (from to : A -> bool) (prev : A)
    (l : list A) : nat :=
  match l with
  | [] => 0
  | x :: l' =>
      (if from prev && to x then 1 else 0) + crossings from to x l'
  end.

(** The flag [isAiSpeaking] going from set to cleared. *)
Definition flagFlips : session -> list session -> nat :=
  crossings isAiSpeaking (fun s => negb (isAiSpeaking s)).

(** The controller entering [Interrupted]. *)
Definition isInterruptedState (s : session) : bool :=
  match controllerState s with Interrupted => true | _ => false end.

(** How often a sequence of states enters [Interrupted]. *)
Definition interruptions : session -> list session -> nat :=
  crossings (fun s => negb (isInterruptedState s)) isInterruptedState.

(** An event that is not a final result, and an event that gets past the
    handler's guard of line 106. *)
Definition isPartial (d : data) : Prop := dataIsFinal d <> Some true.
Definition hasText (d : data) : Prop :=
  truthy_opt (dataTranscript d) = true.

(** An event that is a final recognition result. *)
Definition isFinalData (ev : event) : Prop :=
  match ev with
  | RecognizeData d => dataIsFinal d = Some true
  | _ => False
  end.

(** The flag as a budget of stop commands still to be sent. *)
Definition flagUp (s : session) : nat := if isAiSpeaking s then 1 else 0.

(** The session with one invocation waiting for the language model. *)
Definition oneTurnWaiting : session :=
  {| conversationHistory := [Message user (str "hi")];
     isAiSpeaking := true; isInterrupted := false; wsOpen := true;
     streamLive := true; greeting := GreetingSynth;
     turns := [AwaitClaude] |}.

(** Run a step if it can happen. *)
Definition resume (ev : event) : cmd := fun s =>
  match step s ev with
  | Some r => r
  | None => (s, [])
  end.

(** One run of the pipeline with nothing in between: [processTranscript]
    is called, the invocation resumes with the outcome of the
    language-model call and, if it got that far, with the outcome of the
    synthesizer call. *)
Definition pipelineRun (transcript : jsstring) (r1 : settled jsstring)
    (r2 : settled audio) : cmd := fun s =>
  let i := length (turns s) in
  (processTranscript transcript ;;
   resume (ClaudeSettled i r1) ;;
   resume (SynthSettled i r2)) s.

(** The session once the greeting has been played to the end with the
    caller silent. *)
Definition greeted : session :=
  {| conversationHistory := []; isAiSpeaking := false;
     isInterrupted := false; wsOpen := true; streamLive := true;
     greeting := GreetingDone; turns := [] |}.

(** What an observer sees after each step of a run: the controller
    state, the number of invocations past the language-model call that
    have not returned, and the step's effects.  The log ends where the
    run cannot go on. *)
Fixpoint log (s : session) (evs : list event)
  : list (controller * nat * list effect) :=
  match evs with
  | [] => []
  | ev :: evs' =>
      match step s ev with
      | None => []
      | Some (s', e) =>
          (controllerState s', activePastStage1 s', e) :: log s' evs'
      end
  end.

(** A step that is not the handling of a caller event with text. *)
Definition textless (ev : event) : Prop :=
  match ev with
  | RecognizeData d => truthy_opt (dataTranscript d) = false
  | _ => True
  end.

(** What holds of a session as long as the caller has said nothing: no
    history, no turn, and the flag up exactly while the greeting is under
    way. *)
Definition onlyGreeting (s : session) : Prop :=
  conversationHistory s = [] /\ turns s = [] /\
  isInterrupted s = false /\
  isAiSpeaking s = (if decide (greeting s = GreetingDone)
                    then false else true).

(* ===================================================================== *)
(** ** Counting turns, entries and frames *)
(* ===================================================================== *)

(** The caller's entries and the agent's entries of a history. *)
Definition isUser (m : message) : bool :=
  match msgRole m with user => true | assistant => false end.

Definition isAssistant (m : message) : bool :=
  match msgRole m with user => false | assistant => true end.

Definition userEntries (h : list message) : nat :=
  length (List.filter isUser h).

Definition assistantEntries (h : list message) : nat :=
  length (List.filter isAssistant h).

(** A history that, if it has entries at all, starts with the caller. *)
Definition startsWithUser (h : list message) : Prop :=
  match h with
  | [] => True
  | m :: _ => msgRole m = user
  end.

(** A caller's entry has text left after [trim]. *)
Definition userTextUsable (m : message) : Prop :=
  msgRole m = user -> truthy (trim (content m)) = true.

(** Invocations that wait for the language model, and invocations that
    have not returned. *)
Definition isAwaitClaude (t : turn) : bool :=
  match t with AwaitClaude => true | _ => false end.

Definition notReturned (t : turn) : bool :=
  match t with Returned => false | _ => true end.

Definition awaitingClaude (s : session) : nat :=
  length (List.filter isAwaitClaude (turns s)).

(** The audio payloads that may still be sent: one for each invocation
    that has not returned, and one for a greeting still being
    synthesized. *)
Definition audioPending (s : session) : nat :=
  length (List.filter notReturned (turns s))
  + match greeting s with GreetingSynth => 1 | _ => 0 end.

(** The histories the language model was called with, the chunks written
    to the recognizer stream and the chunks received on the socket. *)
Definition claudeCalls (es : list effect) : list (list message) :=
  omap (fun e => match e with CallClaude h => Some h | _ => None end) es.

Definition streamWrites (es : list effect) : list audio :=
  omap (fun e => match e with StreamWrite c => Some c | _ => None end) es.

Definition chunksReceived (evs : list event) : list audio :=
  omap (fun ev => match ev with WsMessage c => Some c | _ => None end) evs.

(** The texts the synthesizer was called with. *)
Definition synthCalls (es : list effect) : list jsstring :=
  omap (fun e => match e with CallSynth t => Some t | _ => None end) es.

(** What every reachable session keeps about its history: one caller
    entry for each turn started; at most one agent entry for each
    invocation that got past the language-model call; the caller first;
    and text left after [trim] in every caller entry. *)
Definition historyShape (s : session) : Prop :=
  userEntries (conversationHistory s) = length (turns s) /\
  assistantEntries (conversationHistory s) + awaitingClaude s
  <= length (turns s) /\
  startsWithUser (conversationHistory s) /\
  Forall userTextUsable (conversationHistory s).

(* ===================================================================== *)
(** ** Facts about [trim] *)
(* ===================================================================== *)

Section Trim.

Lemma trimStart_nil (s : jsstring) :
  trimStart s = [] <-> forallb isStripped s = true.
Proof.
  induction s as [|c s IH]; simpl; [tauto|].
  destruct (isStripped c); simpl; [exact IH|].
  split; discriminate.
Qed.

Lemma trimStart_head (s : jsstring) c r :
  trimStart s = c :: r -> isStripped c = false.
Proof.
  induction s as [|c' s IH]; simpl; [discriminate|].
  destruct (isStripped c') eqn:E; [exact IH|].
  intros [= -> _]. exact E.
Qed.

Lemma trimEnd_nil (s : jsstring) :
  trimEnd s = [] <-> trimStart (rev s) = [].
Proof.
  unfold trimEnd. split; intros H.
  - apply (f_equal (@rev N)) in H. rewrite rev_involutive in H. exact H.
  - rewrite H. reflexivity.
Qed.

(** [trim] leaves nothing exactly when every code unit is stripped. *)
Lemma trim_nil (s : jsstring) :
  trim s = [] <-> forallb isStripped s = true.
Proof.
  rewrite <- trimStart_nil. unfold trim. rewrite trimEnd_nil. split.
  - destruct (trimStart s) as [|c r] eqn:E; [reflexivity|].
    intros H. apply trimStart_nil in H.
    rewrite forallb_forall in H.
    specialize (H c). rewrite (trimStart_head _ _ _ E) in H.
    exfalso. assert (false = true) as F; [|discriminate F].
    apply H. apply in_rev. rewrite rev_involutive. left. reflexivity.
  - intros ->. reflexivity.
Qed.

(** A string with text left after [trim] is not the empty string. *)
Lemma trim_truthy (s : jsstring) :
  truthy (trim s) = true -> truthy s = true.
Proof.
  destruct s; [discriminate|reflexivity].
Qed.

End Trim.

(* ===================================================================== *)
(** ** Unfolding the commands *)
(* ===================================================================== *)

Ltac unfold_cmds :=
  cbv [step onData onMessage onClose interruptAi processTranscript
       catchBlock afterClaude afterSynth afterGreetingSynth greetingThen
       callClaude push sendIfOpen suspendNew moveTo
       andThen ifS when modify emit skip
       set_isAiSpeaking set_isInterrupted set_wsOpen set_streamLive
       set_greeting set_history set_turns] in *;
  simpl in *.

(** Case analysis on every test a step makes. *)
Ltac step_cases :=
  unfold_cmds; repeat case_match; simplify_eq/=.

(* ===================================================================== *)
(** ** The flags *)
(* ===================================================================== *)

Lemma connection_exclusive : exclusive connection.
Proof. reflexivity. Qed.

(** [interruptAi] sets [isInterrupted] and clears [isAiSpeaking]. *)
Lemma interruptAi_exclusive s :
  exclusive (fst (interruptAi s)).
Proof.
  destruct s as [h [] i w l g t]; unfold exclusive; step_cases; auto.
Qed.

(** [processTranscript] sets [isAiSpeaking]; it keeps the flags apart when
    it is called with [isInterrupted] cleared, as the ['data'] handler
    does on both of its paths. *)
Lemma processTranscript_exclusive t s :
  isInterrupted s = false -> exclusive (fst (processTranscript t s)).
Proof.
  destruct s as [h a i w l g ts]; unfold exclusive; intros Hi.
  step_cases; auto using andb_false_r.
Qed.

(** Every step keeps the flags apart. *)
Lemma step_exclusive s ev s' e :
  step s ev = Some (s', e) -> exclusive s -> exclusive s'.
Proof.
  destruct s as [h a i w l g ts]; unfold exclusive.
  destruct ev; intros Hstep Hex; step_cases; auto using andb_false_r.
Qed.

Lemma run_reachable evs : forall s s' e,
  reachable s -> run s evs = Some (s', e) -> reachable s'.
Proof.
  induction evs as [|ev evs IH]; intros s s' e Hs Hrun; simpl in Hrun.
  - by simplify_eq.
  - destruct (step s ev) as [[s1 e1]|] eqn:Hstep; [|done].
    destruct (run s1 evs) as [[s2 e2]|] eqn:Hrest; [|done].
    simplify_eq. eapply IH; [|exact Hrest].
    eapply reachable_step; [exact Hs|exact Hstep].
Qed.

Lemma greetingInterrupted_reachable : reachable greetingInterrupted.
Proof.
  apply (reachable_step connection (RecognizeData (partialData "wait"))
            _ [Send StopPlaying]); [apply reachable_connection|].
  vm_compute. reflexivity.
Qed.

(** C10. In every state a session can be in between two steps (a handler
    invocation, or a stretch of [processTranscript] or of the greeting
    between two suspension points), [isAiSpeaking] and [isInterrupted] are
    not both true. *)
Theorem flags_never_both (s : session) :
  reachable s -> isAiSpeaking s && isInterrupted s = false.
Proof.
  induction 1 as [|s ev s' e _ IH Hstep].
  - apply connection_exclusive.
  - exact (step_exclusive _ _ _ _ Hstep IH).
Qed.

Lemma flags_never_both_witness :
  reachable greetingInterrupted /\
  isAiSpeaking greetingInterrupted && isInterrupted greetingInterrupted
  = false.
Proof.
  split; [exact greetingInterrupted_reachable|].
  exact (flags_never_both greetingInterrupted greetingInterrupted_reachable).
Defined.

(* ===================================================================== *)
(** ** The dialogue history *)
(* ===================================================================== *)

Lemma pushes_app e1 e2 : pushes (e1 ++ e2) = pushes e1 ++ pushes e2.
Proof. apply omap_app. Qed.

Lemma sends_app e1 e2 : sends (e1 ++ e2) = sends e1 ++ sends e2.
Proof. apply omap_app. Qed.

Lemma audioSent_app e1 e2 :
  audioSent (e1 ++ e2) = audioSent e1 ++ audioSent e2.
Proof. apply omap_app. Qed.

(** A step changes the history by appending what it pushes. *)
Lemma step_history s ev s' e :
  step s ev = Some (s', e) ->
  conversationHistory s' = conversationHistory s ++ pushes e.
Proof.
  destruct s as [h a i w l g ts].
  destruct ev; intros Hstep; step_cases;
    rewrite ?app_nil_r; reflexivity.
Qed.

(** Only the ['data'] handler and the resumption of [processTranscript]
    after the language-model call push anything. *)
Lemma step_pushes_source s ev s' e :
  step s ev = Some (s', e) -> pushes e <> [] ->
  (exists d, ev = RecognizeData d) \/
  (exists i r, ev = ClaudeSettled i r).
Proof.
  destruct s as [h a i w l g ts].
  destruct ev; intros Hstep Hne; eauto; exfalso; step_cases; done.
Qed.

(** C8. Along every run of a session the history only grows at its end:
    the history after the run is the history before it followed by the
    entries pushed during the run, so every entry stays at its index with
    its content. *)
Theorem history_append_only (evs : list event) (s s' : session)
    (e : list effect) :
  run s evs = Some (s', e) ->
  conversationHistory s' = conversationHistory s ++ pushes e /\
  (forall i m, conversationHistory s !! i = Some m ->
               conversationHistory s' !! i = Some m).
Proof.
  intros Hrun.
  assert (conversationHistory s' = conversationHistory s ++ pushes e) as H.
  { revert s s' e Hrun.
    induction evs as [|ev evs IH]; intros s s' e Hrun; simpl in Hrun.
    - simplify_eq. simpl. by rewrite app_nil_r.
    - destruct (step s ev) as [[s1 e1]|] eqn:Hstep; [|done].
      destruct (run s1 evs) as [[s2 e2]|] eqn:Hrest; [|done].
      simplify_eq.
      rewrite (IH _ _ _ Hrest), (step_history _ _ _ _ Hstep).
      by rewrite pushes_app, app_assoc. }
  split; [exact H|].
  intros i m Hi. rewrite H. by apply lookup_app_l_Some.
Qed.

Lemma history_append_only_witness :
  run connection
      [RecognizeData (finalData "hi");
       ClaudeSettled 0 (Fulfilled (str "hello"))]
  = Some
      ({| conversationHistory :=
            [Message user (str "hi"); Message assistant (str "hello")];
          isAiSpeaking := true; isInterrupted := false; wsOpen := true;
          streamLive := true; greeting := GreetingSynth;
          turns := [AwaitSynth (str "hello")] |},
       [Send StopPlaying; Push (Message user (str "hi"));
        CallClaude [Message user (str "hi")];
        Push (Message assistant (str "hello")); CallSynth (str "hello")])
  /\ [Message user (str "hi"); Message assistant (str "hello")]
     = [] ++ [Message user (str "hi"); Message assistant (str "hello")].
Proof.
  assert (run connection
      [RecognizeData (finalData "hi");
       ClaudeSettled 0 (Fulfilled (str "hello"))]
  = Some
      ({| conversationHistory :=
            [Message user (str "hi"); Message assistant (str "hello")];
          isAiSpeaking := true; isInterrupted := false; wsOpen := true;
          streamLive := true; greeting := GreetingSynth;
          turns := [AwaitSynth (str "hello")] |},
       [Send StopPlaying; Push (Message user (str "hi"));
        CallClaude [Message user (str "hi")];
        Push (Message assistant (str "hello")); CallSynth (str "hello")]))
    as Hrun by (vm_compute; reflexivity).
  split; [exact Hrun|].
  exact (proj1 (history_append_only _ _ _ _ Hrun)).
Defined.

(* ===================================================================== *)
(** ** The ['data'] handler *)
(* ===================================================================== *)

(** The handler's own guard (line 106) lets an event through exactly when
    its transcript is a non-empty string. *)
Lemma onData_textless d s :
  truthy_opt (dataTranscript d) = false -> onData d s = (s, []).
Proof.
  unfold onData. destruct (dataTranscript d) as [t|]; simpl; [|done].
  by intros ->.
Qed.

(** [processTranscript] returns at once on a transcript that [trim]
    empties (line 52). *)
Lemma processTranscript_blank t s :
  truthy (trim t) = false -> processTranscript t s = (s, []).
Proof. unfold processTranscript. by intros ->. Qed.

(** With the flag down and no final result, the handler does nothing. *)
Lemma onData_partial_quiet d s :
  isAiSpeaking s = false -> dataIsFinal d <> Some true ->
  onData d s = (s, []).
Proof.
  destruct s as [h a i w l g ts]; simpl; intros -> Hfin.
  unfold onData. destruct (dataIsFinal d) as [[]|]; [done| |];
    step_cases; reflexivity.
Qed.

(** A whitespace-only partial result while the greeting is playing: the
    transcript is unusable, and yet the controller goes from
    [AgentSpeaking] to [Interrupted] and tells the client to stop. *)
Lemma blank_partial_interrupts :
  unusable (dataTranscript (partialData " ")) /\
  controllerState connection = AgentSpeaking /\
  controllerState (fst (onData (partialData " ") connection)) = Interrupted /\
  snd (onData (partialData " ") connection) = [Send StopPlaying].
Proof. vm_compute. auto. Qed.

(** A whitespace-only final result while [Interrupted]: the controller
    goes to [Idle] and no turn starts. *)
Lemma blank_final_leaves_interrupted :
  unusable (dataTranscript (finalData " ")) /\
  controllerState greetingInterrupted = Interrupted /\
  onData (finalData " ") greetingInterrupted
  = (set_isInterrupted false greetingInterrupted, []) /\
  controllerState (set_isInterrupted false greetingInterrupted) = Idle.
Proof. vm_compute. auto. Qed.

(** C3, as amended. An event whose transcript is absent or empty is
    discarded in every state: the session is unchanged and nothing is
    done.  An event whose transcript is unusable in any way (also
    whitespace-only) never appends to the history and never starts a
    turn. *)
Theorem unusable_event_no_append (s : session) (d : data) :
  unusable (dataTranscript d) ->
  (truthy_opt (dataTranscript d) = false -> onData d s = (s, [])) /\
  conversationHistory (fst (onData d s)) = conversationHistory s /\
  pushes (snd (onData d s)) = [] /\
  turns (fst (onData d s)) = turns s.
Proof.
  intros Hu. split; [apply onData_textless|].
  destruct s as [h a i w l g ts].
  unfold onData. destruct (dataTranscript d) as [t|]; simpl in *; [|done].
  destruct (truthy t); simpl; [|done].
  destruct (truthy_flag (dataIsFinal d)); unfold_cmds;
    rewrite ?Hu; simpl; repeat case_match; simplify_eq/=; done.
Qed.

Lemma unusable_event_no_append_witness :
  unusable (dataTranscript (finalData " ")) /\
  conversationHistory (fst (onData (finalData " ") greetingInterrupted))
  = conversationHistory greetingInterrupted.
Proof.
  assert (unusable (dataTranscript (finalData " "))) as Hu
    by (vm_compute; reflexivity).
  split; [exact Hu|].
  exact (proj1 (proj2
    (unusable_event_no_append greetingInterrupted (finalData " ") Hu))).
Defined.

(** C5. A final event with usable text received while [Idle] pushes the
    caller's utterance once, makes one language-model call with the
    history so extended and leaves one new invocation waiting for it, with
    the controller in [AgentSpeaking]; received while [Interrupted] it
    does exactly the same, after leaving [Interrupted]. *)
Theorem final_event_starts_one_turn (s : session) (d : data)
    (t : jsstring) :
  dataTranscript d = Some t -> dataIsFinal d = Some true ->
  truthy (trim t) = true ->
  controllerState s = Idle \/ controllerState s = Interrupted ->
  onData d s =
    (turnStarted t s,
     [Push (Message user t);
      CallClaude (conversationHistory s ++ [Message user t])]) /\
  controllerState (turnStarted t s) = AgentSpeaking /\
  pushes (snd (onData d s)) = [Message user t] /\
  turns (fst (onData d s)) = turns s ++ [AwaitClaude].
Proof.
  intros Ht Hf Hu Hc.
  assert (onData d s =
    (turnStarted t s,
     [Push (Message user t);
      CallClaude (conversationHistory s ++ [Message user t])])) as Heq.
  { destruct s as [h a i w l g ts]. unfold onData, turnStarted.
    rewrite Ht, Hf, (trim_truthy _ Hu). simpl.
    unfold controllerState in Hc; simpl in Hc.
    destruct a; [by destruct Hc|].
    destruct i; unfold_cmds; rewrite ?Hu; simpl; reflexivity. }
  rewrite Heq. auto.
Qed.

Lemma final_event_starts_one_turn_witness :
  controllerState greetingInterrupted = Interrupted /\
  onData (finalData "never mind") greetingInterrupted =
    (turnStarted (str "never mind") greetingInterrupted,
     [Push (Message user (str "never mind"));
      CallClaude [Message user (str "never mind")]]).
Proof.
  split; [reflexivity|].
  refine (proj1 (final_event_starts_one_turn greetingInterrupted
                   (finalData "never mind") (str "never mind") _ _ _ _)).
  - reflexivity.
  - reflexivity.
  - vm_compute. reflexivity.
  - right. reflexivity.
Defined.

(* ===================================================================== *)
(** ** Cancellation *)
(* ===================================================================== *)

(** Signalling cancellation with the flag down changes nothing. *)
Lemma interruptAi_idempotent s :
  isAiSpeaking s = false -> interruptAi s = (s, []).
Proof. destruct s as [h a i w l g ts]; simpl; intros ->. reflexivity. Qed.

Lemma crossings_repeat {A : Type} (from to : A -> bool) (x : A) n :
  from x && to x = false -> crossings from to x (repeat x n) = 0.
Proof. intros H. induction n; simpl; [done|]. by rewrite H, IHn. Qed.

Lemma last_cons_repeat {A : Type} (x d : A) n :
  List.last (x :: repeat x n) d = x.
Proof. induction n; [done|]. exact IHn. Qed.

(** Once the flag is down, partial events leave the session as it is. *)
Lemma deliver_partials_quiet ds : forall s,
  isAiSpeaking s = false -> Forall isPartial ds ->
  deliver ds s = (repeat s (length ds), []).
Proof.
  induction ds as [|d ds IH]; intros s Hs Hp; simpl; [done|].
  inversion Hp as [|? ? Hd Hds]; subst.
  rewrite (onData_partial_quiet d s Hs Hd).
  by rewrite (IH s Hs Hds).
Qed.

(** The first partial event with text while the flag is up. *)
Lemma onData_partial_speaking d s :
  isAiSpeaking s = true -> isPartial d -> hasText d ->
  onData d s =
    (set_isInterrupted true (set_isAiSpeaking false s),
     if wsOpen s then [Send StopPlaying] else []).
Proof.
  destruct s as [h a i w l g ts]; simpl; intros -> Hp Ht.
  unfold onData, hasText, isPartial in *.
  destruct (dataTranscript d) as [t|]; simpl in *; [|done].
  rewrite Ht. simpl.
  destruct (dataIsFinal d) as [[]|]; [done| |];
    destruct w; unfold_cmds; reflexivity.
Qed.

(** C4. For a sequence of partial events, at least one of them with
    text, delivered from [AgentSpeaking]: the stop command is sent at most
    once (once if the socket is open), [isAiSpeaking] is cleared once, the
    controller enters [Interrupted] once and is there at the end, where
    signalling cancellation again changes nothing and does nothing. *)
Theorem partials_cancel_once (s : session) (ds : list data) :
  controllerState s = AgentSpeaking ->
  Forall isPartial ds -> Exists hasText ds ->
  let ss := fst (deliver ds s) in
  let e := snd (deliver ds s) in
  stopsSent e <= 1 /\
  stopsSent e = (if wsOpen s then 1 else 0) /\
  flagFlips s ss = 1 /\
  interruptions s ss = 1 /\
  controllerState (List.last ss s) = Interrupted /\
  interruptAi (List.last ss s) = (List.last ss s, []).
Proof.
  intros Hc Hp Hex. simpl.
  assert (isAiSpeaking s = true) as Ha.
  { unfold controllerState in Hc.
    destruct (isAiSpeaking s); [done|]. by destruct (isInterrupted s). }
  clear Hc.
  assert (stopsSent (snd (deliver ds s)) = (if wsOpen s then 1 else 0) /\
          flagFlips s (fst (deliver ds s)) = 1 /\
          interruptions s (fst (deliver ds s)) = 1 /\
          controllerState (List.last (fst (deliver ds s)) s) = Interrupted /\
          isAiSpeaking (List.last (fst (deliver ds s)) s) = false) as H.
  { induction ds as [|d ds IH]; [by inversion Hex|].
    inversion Hp as [|? ? Hd Hds]; subst. simpl.
    destruct (truthy_opt (dataTranscript d)) eqn:Ht.
    - rewrite (onData_partial_speaking d s Ha Hd Ht).
      set (s1 := set_isInterrupted true (set_isAiSpeaking false s)).
      rewrite (deliver_partials_quiet ds s1 eq_refl Hds).
      cbn [fst snd]. rewrite app_nil_r, last_cons_repeat.
      unfold flagFlips, interruptions. simpl.
      rewrite !crossings_repeat by reflexivity.
      unfold isInterruptedState, controllerState. rewrite Ha. simpl.
      by destruct (wsOpen s).
    - rewrite (onData_textless d s Ht).
      assert (Exists hasText ds) as Hex'.
      { inversion Hex as [? ? Hd'|]; subst; [|done].
        unfold hasText in Hd'. congruence. }
      specialize (IH Hds Hex').
      destruct (deliver ds s) as [ss e] eqn:Hdel. simpl in *.
      destruct IH as (H1 & H2 & H3 & H4 & H5).
      unfold flagFlips, interruptions in *. simpl.
      unfold isInterruptedState at 1 2. unfold controllerState at 1 2.
      rewrite Ha. simpl. rewrite H2, H3.
      repeat split; try done.
      + destruct ss; [|done]. simpl in *. congruence.
      + destruct ss; [|done]. simpl in *. congruence. }
  destruct H as (H1 & H2 & H3 & H4 & H5).
  repeat split; try done.
  - rewrite H1. destruct (wsOpen s); lia.
  - by apply interruptAi_idempotent.
Qed.

Lemma partials_cancel_once_witness :
  controllerState connection = AgentSpeaking /\
  stopsSent (snd (deliver [partialData "wa"; partialData "wait";
                           partialData "wait a"] connection)) = 1 /\
  interruptions connection
    (fst (deliver [partialData "wa"; partialData "wait";
                   partialData "wait a"] connection)) = 1.
Proof.
  split; [reflexivity|].
  assert (Forall isPartial [partialData "wa"; partialData "wait";
                            partialData "wait a"]) as Hp
    by (repeat constructor; discriminate).
  assert (Exists hasText [partialData "wa"; partialData "wait";
                          partialData "wait a"]) as Hex
    by (left; reflexivity).
  pose proof (partials_cancel_once connection _ eq_refl Hp Hex) as H.
  simpl in H.
  split; [exact (proj1 (proj2 H))|exact (proj1 (proj2 (proj2 (proj2 H))))].
Defined.

(** Without a final result no step raises the flag, and a step that sends
    the stop command lowers it. *)
Lemma step_stop_budget s ev s' e :
  step s ev = Some (s', e) -> ~ isFinalData ev ->
  stopsSent e + flagUp s' <= flagUp s.
Proof.
  destruct s as [h a i w l g ts]. unfold flagUp.
  destruct ev; simpl; intros Hstep Hnf;
    try (step_cases; simpl; lia).
  destruct l; [|done]. simplify_eq.
  unfold onData in *.
  destruct (dataIsFinal d) as [[]|]; [done| |];
    step_cases; simpl; lia.
Qed.

(** However the partial events are interleaved with the other steps of
    the session, the stop command is sent at most once until the next
    final result, and not at all when the flag is down. *)
Lemma interleaved_partials_stop_once evs : forall s s' e,
  run s evs = Some (s', e) -> Forall (fun ev => ~ isFinalData ev) evs ->
  stopsSent e + flagUp s' <= flagUp s.
Proof.
  induction evs as [|ev evs IH]; intros s s' e Hrun Hnf; simpl in Hrun.
  - simplify_eq. simpl. lia.
  - destruct (step s ev) as [[s1 e1]|] eqn:Hstep; [|done].
    destruct (run s1 evs) as [[s2 e2]|] eqn:Hrest; [|done].
    simplify_eq. inversion Hnf as [|? ? Hev Hevs]; subst.
    pose proof (step_stop_budget _ _ _ _ Hstep Hev).
    pose proof (IH _ _ _ Hrest Hevs).
    unfold stopsSent in *. rewrite sends_app, List.filter_app, length_app.
    lia.
Qed.

(* ===================================================================== *)
(** ** The response pipeline *)
(* ===================================================================== *)

(** Checkpoint A (line 61): an invocation that resumes from the
    language-model call with the flag down returns without pushing,
    calling the synthesizer or sending. *)
Lemma checkpointA_flag_down s i reply :
  turns s !! i = Some AwaitClaude -> isAiSpeaking s = false ->
  step s (ClaudeSettled i (Fulfilled reply))
  = Some (set_turns (<[i := Returned]> (turns s)) s, []).
Proof.
  destruct s as [h a j w l g ts]; simpl; intros -> ->. reflexivity.
Qed.

(** Checkpoint B (line 78): an invocation that resumes from the
    synthesizer with the flag down returns without sending. *)
Lemma checkpointB_flag_down s i reply payload :
  turns s !! i = Some (AwaitSynth reply) -> isAiSpeaking s = false ->
  step s (SynthSettled i (Fulfilled payload))
  = Some (set_turns (<[i := Returned]> (turns s)) s, []).
Proof.
  destruct s as [h a j w l g ts]; simpl; intros -> ->. reflexivity.
Qed.

(** Both checkpoints read the flag as it is when the invocation resumes:
    with the flag up, the reply is pushed and synthesized, whichever
    invocation raised the flag. *)
Lemma checkpointA_flag_up s i reply :
  turns s !! i = Some AwaitClaude -> isAiSpeaking s = true ->
  step s (ClaudeSettled i (Fulfilled reply))
  = Some (set_turns (<[i := AwaitSynth reply]> (turns s))
            (set_history
               (conversationHistory s ++ [Message assistant reply]) s),
          [Push (Message assistant reply); CallSynth reply]).
Proof.
  destruct s as [h a j w l g ts]; simpl; intros -> ->. reflexivity.
Qed.

Lemma checkpointB_flag_up s i reply payload :
  turns s !! i = Some (AwaitSynth reply) -> isAiSpeaking s = true ->
  step s (SynthSettled i (Fulfilled payload))
  = Some (set_turns (<[i := Returned]> (turns s)) s,
          if wsOpen s then [Send (Audio payload)] else []).
Proof.
  destruct s as [h a j w l g ts]; simpl; intros -> ->.
  unfold_cmds. by destruct w.
Qed.

(** Moving an invocation, or starting one, does not put another
    invocation at the synthesizer. *)
Lemma moveTo_AwaitSynth (ts : list turn) i j t reply :
  <[i := t]> ts !! j = Some (AwaitSynth reply) ->
  t = AwaitSynth reply \/ ts !! j = Some (AwaitSynth reply).
Proof.
  rewrite list_lookup_insert_Some. intros [(_ & -> & _)|(_ & H)]; auto.
Qed.

Lemma suspendNew_AwaitSynth (ts : list turn) j reply :
  (ts ++ [AwaitClaude]) !! j = Some (AwaitSynth reply) ->
  ts !! j = Some (AwaitSynth reply).
Proof.
  rewrite lookup_app_Some. intros [H|(_ & H)]; [done|].
  by destruct (j - length ts).
Qed.

Lemma step_AwaitSynth s ev s' e j reply :
  step s ev = Some (s', e) ->
  turns s' !! j = Some (AwaitSynth reply) ->
  turns s !! j = Some (AwaitSynth reply) \/
  Message assistant reply ∈ conversationHistory s'.
Proof.
  destruct s as [h a i w l g ts].
  destruct ev; intros Hstep Hj; step_cases;
    repeat match goal with
    | H : (_ ++ [AwaitClaude]) !! _ = Some (AwaitSynth _) |- _ =>
        apply suspendNew_AwaitSynth in H
    | H : <[_ := _]> _ !! _ = Some (AwaitSynth _) |- _ =>
        apply moveTo_AwaitSynth in H; destruct H as [H|H]; simplify_eq
    end; auto.
  right. apply elem_of_app. right. by apply list_elem_of_singleton.
Qed.

(** The reply of an invocation that waits for the synthesizer is on the
    history. *)
Lemma awaiting_synth_reply_in_history s :
  reachable s -> forall j reply,
  turns s !! j = Some (AwaitSynth reply) ->
  Message assistant reply ∈ conversationHistory s.
Proof.
  induction 1 as [|s ev s' e _ IH Hstep]; intros j reply Hj.
  - by destruct j.
  - destruct (step_AwaitSynth _ _ _ _ _ _ Hstep Hj) as [H|H]; [|done].
    rewrite (step_history _ _ _ _ Hstep).
    apply elem_of_app. left. by eapply IH.
Qed.

(** C7. When the language-model call of an invocation fails, the
    invocation returns, the flag is cleared, the failure goes to the
    console and nothing else is done: nothing is pushed onto the history
    and nothing is sent.  When the synthesizer call fails, the same holds,
    and the reply pushed before the call is still on the history.  In both
    cases the socket and the recognizer stream are left as they were, so
    the session goes on. *)
Theorem collaborator_failure_abandons_turn (s : session) (i : nat) :
  reachable s ->
  (turns s !! i = Some AwaitClaude ->
   exists s',
     step s (ClaudeSettled i Rejected) = Some (s', [ConsoleError]) /\
     turns s' !! i = Some Returned /\
     isAiSpeaking s' = false /\
     conversationHistory s' = conversationHistory s /\
     wsOpen s' = wsOpen s /\ streamLive s' = streamLive s) /\
  (forall reply, turns s !! i = Some (AwaitSynth reply) ->
   exists s',
     step s (SynthSettled i Rejected) = Some (s', [ConsoleError]) /\
     turns s' !! i = Some Returned /\
     isAiSpeaking s' = false /\
     conversationHistory s' = conversationHistory s /\
     Message assistant reply ∈ conversationHistory s' /\
     wsOpen s' = wsOpen s /\ streamLive s' = streamLive s).
Proof.
  intros Hreach. split.
  - intros Hi. destruct s as [h a j w l g ts]; simpl in *.
    eexists. rewrite Hi. unfold_cmds. split; [reflexivity|]. simpl.
    split; [|done].
    apply list_lookup_insert_eq. by eapply lookup_lt_Some.
  - intros reply Hi.
    pose proof (awaiting_synth_reply_in_history s Hreach i reply Hi) as Hin.
    destruct s as [h a j w l g ts]; simpl in *.
    eexists. rewrite Hi. unfold_cmds. split; [reflexivity|]. simpl.
    split; [|done].
    apply list_lookup_insert_eq. by eapply lookup_lt_Some.
Qed.

Lemma oneTurnWaiting_reachable : reachable oneTurnWaiting.
Proof.
  apply (reachable_step connection (RecognizeData (finalData "hi")) _
           [Send StopPlaying; Push (Message user (str "hi"));
            CallClaude [Message user (str "hi")]]);
    [apply reachable_connection|].
  vm_compute. reflexivity.
Qed.

Lemma collaborator_failure_abandons_turn_witness :
  reachable oneTurnWaiting /\
  turns oneTurnWaiting !! 0 = Some AwaitClaude /\
  exists s',
    step oneTurnWaiting (ClaudeSettled 0 Rejected)
    = Some (s', [ConsoleError]) /\
    turns s' !! 0 = Some Returned /\
    isAiSpeaking s' = false /\
    conversationHistory s' = conversationHistory oneTurnWaiting /\
    wsOpen s' = wsOpen oneTurnWaiting /\
    streamLive s' = streamLive oneTurnWaiting.
Proof.
  split; [exact oneTurnWaiting_reachable|].
  split; [reflexivity|].
  exact (proj1 (collaborator_failure_abandons_turn oneTurnWaiting 0
                  oneTurnWaiting_reachable) eq_refl).
Defined.

(* ===================================================================== *)
(** ** Determinism of a pipeline run *)
(* ===================================================================== *)

(** The effects of a pipeline run depend on the session only through its
    history and the readiness of the socket. *)
Lemma pipelineRun_effects t r1 r2 s :
  snd (pipelineRun t r1 r2 s)
  = snd (pipelineRun t r1 r2
           {| conversationHistory := conversationHistory s;
              isAiSpeaking := false; isInterrupted := false;
              wsOpen := wsOpen s; streamLive := true;
              greeting := GreetingDone; turns := [] |}).
Proof.
  destruct s as [h a j w l g ts]. unfold pipelineRun, andThen. simpl.
  unfold processTranscript. destruct (truthy (trim t)); simpl.
  - unfold_cmds. unfold resume, step. simpl.
    rewrite (lookup_app_r ts), Nat.sub_diag by lia. simpl.
    destruct r1 as [reply|]; unfold_cmds.
    + rewrite list_lookup_insert_eq by (rewrite length_app; simpl; lia).
      destruct r2 as [payload|]; unfold_cmds; by destruct w.
    + rewrite list_lookup_insert_eq by (rewrite length_app; simpl; lia).
      reflexivity.
  - unfold resume, step, skip. simpl.
    rewrite (lookup_ge_None_2 ts) by lia. simpl.
    rewrite (lookup_ge_None_2 ts) by lia. reflexivity.
Qed.

(** A turn whose language-model call fails leaves on the history the
    caller's utterance it started with and nothing else. *)
Lemma failed_turn_pushes t r2 s :
  truthy (trim t) = true ->
  pushes (snd (pipelineRun t Rejected r2 s)) = [Message user t] /\
  sends (snd (pipelineRun t Rejected r2 s)) = [].
Proof.
  intros Ht. rewrite pipelineRun_effects.
  unfold pipelineRun, andThen, processTranscript. rewrite Ht. simpl.
  unfold_cmds. unfold resume. simpl. unfold_cmds. done.
Qed.

(** C9. Two pipeline runs for the same transcript, started from sessions
    with the same history and the same socket readiness, given the same
    outcomes of the language-model and synthesizer calls and with no
    other step in between, have the same effects in the same order: the
    same pushes onto the history, the same calls and the same audio
    sent. *)
Theorem pipeline_deterministic (s1 s2 : session) (t : jsstring)
    (r1 : settled jsstring) (r2 : settled audio) :
  conversationHistory s1 = conversationHistory s2 ->
  wsOpen s1 = wsOpen s2 ->
  snd (pipelineRun t r1 r2 s1) = snd (pipelineRun t r1 r2 s2) /\
  pushes (snd (pipelineRun t r1 r2 s1))
  = pushes (snd (pipelineRun t r1 r2 s2)) /\
  audioSent (snd (pipelineRun t r1 r2 s1))
  = audioSent (snd (pipelineRun t r1 r2 s2)).
Proof.
  intros Hh Hw.
  assert (snd (pipelineRun t r1 r2 s1) = snd (pipelineRun t r1 r2 s2))
    as H by (rewrite (pipelineRun_effects t r1 r2 s1),
                     (pipelineRun_effects t r1 r2 s2), Hh, Hw; reflexivity).
  by rewrite H.
Qed.

Lemma pipeline_deterministic_witness :
  conversationHistory declared = conversationHistory greetingInterrupted /\
  wsOpen declared = wsOpen greetingInterrupted /\
  snd (pipelineRun (str "hi") (Fulfilled (str "hello"))
         (Fulfilled [Byte.x4f]) declared)
  = snd (pipelineRun (str "hi") (Fulfilled (str "hello"))
           (Fulfilled [Byte.x4f]) greetingInterrupted).
Proof.
  split; [reflexivity|]. split; [reflexivity|].
  exact (proj1 (pipeline_deterministic declared greetingInterrupted
                  (str "hi") (Fulfilled (str "hello"))
                  (Fulfilled [Byte.x4f]) eq_refl eq_refl)).
Defined.

Lemma greeted_run :
  run connection [GreetingSynthSettled (Fulfilled [Byte.x4f]); GreetingThen]
  = Some (greeted, [Send (Audio [Byte.x4f])]).
Proof. reflexivity. Qed.

Lemma greeted_reachable : reachable greeted.
Proof. exact (run_reachable _ _ _ _ reachable_connection greeted_run). Qed.

(** The scenario of the specification: a final utterance while [Idle],
    one language-model call with the history, one synthesizer call with
    the reply, one audio delivery. *)
Example dog_hair_scenario :
  snd (pipelineRun (str "I have dog hair in my car")
         (Fulfilled (str "I'd recommend our Interior Detail."))
         (Fulfilled [Byte.x4f; Byte.x67]) greeted)
  = [Push (Message user (str "I have dog hair in my car"));
     CallClaude [Message user (str "I have dog hair in my car")];
     Push (Message assistant (str "I'd recommend our Interior Detail."));
     CallSynth (str "I'd recommend our Interior Detail.");
     Send (Audio [Byte.x4f; Byte.x67])].
Proof. vm_compute. reflexivity. Qed.

(* ===================================================================== *)
(** ** A superseded turn and the turn that replaces it *)
(* ===================================================================== *)

(** C1. The code at the failing input.  The caller speaks a final
    utterance while the turn for the previous one waits for the language
    model: the handler clears the flag, and starts a new turn, which sets
    it again.  When the first invocation resumes its checkpoint finds the
    flag up, so it goes on; both invocations are then past the
    language-model call together, both replies are pushed and both audio
    payloads are sent. *)
Theorem superseded_turn_overlaps :
  log greeted
    [RecognizeData (finalData "a");
     RecognizeData (finalData "b");
     ClaudeSettled 0 (Fulfilled (str "x"));
     ClaudeSettled 1 (Fulfilled (str "y"));
     SynthSettled 0 (Fulfilled [Byte.x01]);
     SynthSettled 1 (Fulfilled [Byte.x02])]
  = [(AgentSpeaking, 0,
      [Push (Message user (str "a"));
       CallClaude [Message user (str "a")]]);
     (AgentSpeaking, 0,
      [Send StopPlaying; Push (Message user (str "b"));
       CallClaude [Message user (str "a"); Message user (str "b")]]);
     (AgentSpeaking, 1,
      [Push (Message assistant (str "x")); CallSynth (str "x")]);
     (AgentSpeaking, 2,
      [Push (Message assistant (str "y")); CallSynth (str "y")]);
     (AgentSpeaking, 1, [Send (Audio [Byte.x01])]);
     (AgentSpeaking, 0, [Send (Audio [Byte.x02])])].
Proof. vm_compute. reflexivity. Qed.

(** C2. The code at the failing inputs.  First run: cancellation is
    signalled by a partial result while invocation 0 waits for the
    language model, the utterance finalizes and starts invocation 1, and
    invocation 0 then pushes its reply and sends its audio.  Second run:
    the same with the cancellation signalled while invocation 0 waits for
    the synthesizer; its audio is sent. *)
Theorem cancelled_turn_not_suppressed :
  log greeted
    [RecognizeData (finalData "a");
     RecognizeData (partialData "wait");
     RecognizeData (finalData "wait");
     ClaudeSettled 0 (Fulfilled (str "x"));
     SynthSettled 0 (Fulfilled [Byte.x01])]
  = [(AgentSpeaking, 0,
      [Push (Message user (str "a"));
       CallClaude [Message user (str "a")]]);
     (Interrupted, 0, [Send StopPlaying]);
     (AgentSpeaking, 0,
      [Push (Message user (str "wait"));
       CallClaude [Message user (str "a"); Message user (str "wait")]]);
     (AgentSpeaking, 1,
      [Push (Message assistant (str "x")); CallSynth (str "x")]);
     (AgentSpeaking, 0, [Send (Audio [Byte.x01])])]
  /\
  log greeted
    [RecognizeData (finalData "a");
     ClaudeSettled 0 (Fulfilled (str "x"));
     RecognizeData (partialData "wait");
     RecognizeData (finalData "wait");
     SynthSettled 0 (Fulfilled [Byte.x01])]
  = [(AgentSpeaking, 0,
      [Push (Message user (str "a"));
       CallClaude [Message user (str "a")]]);
     (AgentSpeaking, 1,
      [Push (Message assistant (str "x")); CallSynth (str "x")]);
     (Interrupted, 1, [Send StopPlaying]);
     (AgentSpeaking, 1,
      [Push (Message user (str "wait"));
       CallClaude [Message user (str "a"); Message assistant (str "x");
                   Message user (str "wait")]]);
     (AgentSpeaking, 0, [Send (Audio [Byte.x01])])].
Proof. split; vm_compute; reflexivity. Qed.

(** What the checkpoints do achieve: a turn cancelled by a partial
    result is suppressed as long as no new turn has started when it
    resumes. *)
Example cancelled_turn_suppressed :
  log greeted
    [RecognizeData (finalData "a");
     RecognizeData (partialData "wait");
     ClaudeSettled 0 (Fulfilled (str "x"))]
  = [(AgentSpeaking, 0,
      [Push (Message user (str "a"));
       CallClaude [Message user (str "a")]]);
     (Interrupted, 0, [Send StopPlaying]);
     (Interrupted, 0, [])].
Proof. vm_compute. reflexivity. Qed.

(* ===================================================================== *)
(** ** The greeting *)
(* ===================================================================== *)

(** The caller speaks before the greeting has been synthesized.  The
    event is handled at once, with the controller in [AgentSpeaking]: the
    stop command is sent and a turn starts.  The greeting's audio is sent
    all the same, the [.then] callback clears the flag that the new turn
    has set, and the turn drops its reply at the first checkpoint. *)
Lemma caller_speaks_during_greeting :
  controllerState connection = AgentSpeaking /\
  greeting connection = GreetingSynth /\
  log connection
    [RecognizeData (finalData "hi");
     GreetingSynthSettled (Fulfilled [Byte.x4f]);
     GreetingThen;
     ClaudeSettled 0 (Fulfilled (str "hello"))]
  = [(AgentSpeaking, 0,
      [Send StopPlaying; Push (Message user (str "hi"));
       CallClaude [Message user (str "hi")]]);
     (AgentSpeaking, 0, [Send (Audio [Byte.x4f])]);
     (Idle, 0, []);
     (Idle, 0, [])].
Proof. repeat split; vm_compute; reflexivity. Qed.

Lemma connection_onlyGreeting : onlyGreeting connection.
Proof. by repeat split. Qed.

Lemma step_onlyGreeting s ev s' e :
  onlyGreeting s -> step s ev = Some (s', e) -> textless ev ->
  onlyGreeting s'.
Proof.
  destruct s as [h a i w l g ts]. unfold onlyGreeting. simpl.
  intros (-> & -> & -> & ->) Hstep Ht.
  destruct ev; simpl in Ht;
    try (step_cases; repeat split; done).
  simpl in Hstep. destruct l; [|done].
  rewrite (onData_textless _ _ Ht) in Hstep. by simplify_eq.
Qed.

Lemma run_onlyGreeting evs : forall s s' e,
  onlyGreeting s -> run s evs = Some (s', e) -> Forall textless evs ->
  onlyGreeting s'.
Proof.
  induction evs as [|ev evs IH]; intros s s' e Hs Hrun Ht; simpl in Hrun.
  - by simplify_eq.
  - destruct (step s ev) as [[s1 e1]|] eqn:Hstep; [|done].
    destruct (run s1 evs) as [[s2 e2]|] eqn:Hrest; [|done].
    simplify_eq. inversion Ht; subst.
    eapply IH; [|exact Hrest|done].
    by eapply step_onlyGreeting.
Qed.

(** An event with text handled while the flag is up starts by signalling
    cancellation. *)
Lemma onData_text_speaking d s :
  isAiSpeaking s = true -> hasText d ->
  exists e',
    snd (onData d s)
    = (if wsOpen s then [Send StopPlaying] else []) ++ e'.
Proof.
  destruct s as [h a i w l g ts]; simpl; intros -> Ht.
  unfold onData, hasText in *.
  destruct (dataTranscript d) as [t|]; simpl in *; [|done].
  rewrite Ht. simpl.
  destruct (truthy_flag (dataIsFinal d)); destruct w; unfold_cmds;
    repeat case_match; simplify_eq/=; eauto.
Qed.

(** C6, as amended. From the connection on, as long as no caller event
    with text has been handled: while the greeting is under way the
    controller is in [AgentSpeaking], and a caller event with text is then
    handled at once and starts by signalling cancellation; once the
    greeting has completed the controller is in [Idle], with both flags
    cleared, an empty history and no turn started. *)
Theorem greeting_then_idle (evs : list event) (s : session)
    (e : list effect) :
  run connection evs = Some (s, e) -> Forall textless evs ->
  (greeting s <> GreetingDone ->
   controllerState s = AgentSpeaking /\
   forall d, hasText d ->
     exists e', snd (onData d s)
                = (if wsOpen s then [Send StopPlaying] else []) ++ e') /\
  (greeting s = GreetingDone ->
   controllerState s = Idle /\
   isAiSpeaking s = false /\ isInterrupted s = false /\
   conversationHistory s = [] /\ turns s = []).
Proof.
  intros Hrun Ht.
  destruct (run_onlyGreeting _ _ _ _ connection_onlyGreeting Hrun Ht)
    as (Hh & Hts & Hi & Ha).
  unfold controllerState. split; intros Hg.
  - rewrite decide_False in Ha by done. rewrite Ha. split; [done|].
    intros d Hd. by apply onData_text_speaking.
  - rewrite decide_True in Ha by done. by rewrite Ha, Hi.
Qed.

Lemma greeting_then_idle_witness :
  run connection
    [RecognizeData (partialData "");
     GreetingSynthSettled (Fulfilled [Byte.x4f]); GreetingThen]
  = Some (greeted, [Send (Audio [Byte.x4f])]) /\
  Forall textless
    [RecognizeData (partialData "");
     GreetingSynthSettled (Fulfilled [Byte.x4f]); GreetingThen] /\
  greeting greeted = GreetingDone /\
  controllerState greeted = Idle.
Proof.
  assert (run connection
    [RecognizeData (partialData "");
     GreetingSynthSettled (Fulfilled [Byte.x4f]); GreetingThen]
  = Some (greeted, [Send (Audio [Byte.x4f])])) as Hrun by reflexivity.
  assert (Forall textless
    [RecognizeData (partialData "");
     GreetingSynthSettled (Fulfilled [Byte.x4f]); GreetingThen]) as Ht
    by (repeat constructor).
  split; [exact Hrun|]. split; [exact Ht|]. split; [reflexivity|].
  exact (proj1 (proj2 (greeting_then_idle _ _ _ Hrun Ht) eq_refl)).
Defined.


(* ===================================================================== *)
(** ** Further properties of the closure *)
(* ===================================================================== *)

Lemma stopsSent_app e1 e2 : stopsSent (e1 ++ e2) = stopsSent e1 + stopsSent e2.
Proof.
  unfold stopsSent. by rewrite sends_app, List.filter_app, length_app.
Qed.

(** Replacing one element of a list changes a count by that element. *)
Lemma filter_insert_length {A : Type} (P : A -> bool) (l : list A) :
  forall i x y, l !! i = Some y ->
  length (List.filter P (<[i := x]> l)) + (if P y then 1 else 0)
  = length (List.filter P l) + (if P x then 1 else 0).
Proof.
  induction l as [|a l IH]; intros [|i] x y Hi; simpl in *; try done.
  - simplify_eq. destruct (P x), (P y); simpl; lia.
  - specialize (IH i x y Hi). destruct (P a); simpl; lia.
Qed.

(** X1. [processTranscript] returns at once, leaving the session as it is
    and doing nothing, exactly when every code unit of the transcript is
    white space or a line terminator (the empty transcript included). *)
Theorem processTranscript_guard (t : jsstring) (s : session) :
  processTranscript t s = (s, []) <-> forallb isStripped t = true.
Proof.
  rewrite <- trim_nil. unfold processTranscript.
  destruct (trim t) as [|c r] eqn:E; simpl.
  - done.
  - split; [|done]. unfold_cmds. intros H. by simplify_eq.
Qed.

(** X2. A final event whose transcript has text left after [trim] starts
    one turn whatever the state of the controller: the session becomes
    [turnStarted], with one push of the caller's utterance and one
    language-model call, preceded by the stop command when the flag was up
    and the socket open. *)
Theorem final_event_always_starts_turn (s : session) (d : data)
    (t : jsstring) :
  dataTranscript d = Some t -> dataIsFinal d = Some true ->
  truthy (trim t) = true ->
  onData d s =
    (turnStarted t s,
     (if isAiSpeaking s && wsOpen s then [Send StopPlaying] else [])
     ++ [Push (Message user t);
         CallClaude (conversationHistory s ++ [Message user t])]).
Proof.
  intros Ht Hf Hu. destruct s as [h a i w l g ts].
  unfold onData, turnStarted. rewrite Ht, Hf, (trim_truthy _ Hu). simpl.
  destruct a, i, w; unfold_cmds; rewrite ?Hu; simpl; reflexivity.
Qed.

Lemma final_event_always_starts_turn_witness :
  isAiSpeaking oneTurnWaiting = true /\
  onData (finalData "b") oneTurnWaiting =
    (turnStarted (str "b") oneTurnWaiting,
     [Send StopPlaying; Push (Message user (str "b"));
      CallClaude [Message user (str "hi"); Message user (str "b")]]).
Proof.
  split; [reflexivity|].
  refine (final_event_always_starts_turn oneTurnWaiting (finalData "b")
            (str "b") _ _ _).
  - reflexivity.
  - reflexivity.
  - vm_compute. reflexivity.
Defined.

(** Once the socket has left the open state it stays so. *)
Lemma step_socket_closed s ev s' e :
  step s ev = Some (s', e) -> wsOpen s = false ->
  wsOpen s' = false /\ sends e = [].
Proof.
  destruct s as [h a i w l g ts]; simpl.
  destruct ev; intros Hstep ->; step_cases; done.
Qed.

(** X3. Once the socket is no longer open, nothing is ever sent on it:
    no stop command, no greeting and no reply audio, whatever events and
    resumptions follow. *)
Theorem nothing_sent_when_not_open (evs : list event) (s s' : session)
    (e : list effect) :
  wsOpen s = false -> run s evs = Some (s', e) ->
  sends e = [] /\ wsOpen s' = false.
Proof.
  revert s s' e.
  induction evs as [|ev evs IH]; intros s s' e Hw Hrun; simpl in Hrun.
  - by simplify_eq.
  - destruct (step s ev) as [[s1 e1]|] eqn:Hstep; [|done].
    destruct (run s1 evs) as [[s2 e2]|] eqn:Hrest; [|done].
    simplify_eq.
    destruct (step_socket_closed _ _ _ _ Hstep Hw) as [Hw1 He1].
    destruct (IH _ _ _ Hw1 Hrest) as [He2 Hw2].
    by rewrite sends_app, He1, He2.
Qed.

Lemma nothing_sent_when_not_open_witness :
  wsOpen (set_wsOpen false oneTurnWaiting) = false /\
  run (set_wsOpen false oneTurnWaiting)
    [RecognizeData (partialData "wait");
     ClaudeSettled 0 (Fulfilled (str "hello"));
     GreetingSynthSettled (Fulfilled [Byte.x4f])]
  = Some
      ({| conversationHistory := [Message user (str "hi")];
          isAiSpeaking := false; isInterrupted := true; wsOpen := false;
          streamLive := true; greeting := GreetingSettled;
          turns := [Returned] |}, []) /\
  sends [] = [].
Proof.
  assert (run (set_wsOpen false oneTurnWaiting)
    [RecognizeData (partialData "wait");
     ClaudeSettled 0 (Fulfilled (str "hello"));
     GreetingSynthSettled (Fulfilled [Byte.x4f])]
  = Some
      ({| conversationHistory := [Message user (str "hi")];
          isAiSpeaking := false; isInterrupted := true; wsOpen := false;
          streamLive := true; greeting := GreetingSettled;
          turns := [Returned] |}, [])) as Hrun by (vm_compute; reflexivity).
  split; [reflexivity|]. split; [exact Hrun|].
  exact (proj1 (nothing_sent_when_not_open _
           (set_wsOpen false oneTurnWaiting) _ _ eq_refl Hrun)).
Defined.

(** A step sends the stop command only by lowering the flag, and raises
    the flag only by starting a turn. *)
Lemma step_stop_per_turn s ev s' e :
  step s ev = Some (s', e) ->
  stopsSent e + flagUp s' + length (turns s)
  <= flagUp s + length (turns s').
Proof.
  destruct s as [h a i w l g ts]. unfold flagUp.
  destruct ev; simpl; intros Hstep; step_cases;
    rewrite ?length_insert, ?length_app; simpl; lia.
Qed.

(** X4. Along every run the stop command is sent at most once for each
    raising of the flag: the number of stop commands is bounded by the
    number of turns started during the run, plus one if the flag was up
    at the start.  From the connection on that is at most one stop
    command per turn started, plus one for the greeting. *)
Theorem stop_at_most_once_per_turn (evs : list event) (s s' : session)
    (e : list effect) :
  run s evs = Some (s', e) ->
  stopsSent e + flagUp s' + length (turns s)
  <= flagUp s + length (turns s') /\
  (s = connection -> stopsSent e <= 1 + length (turns s')).
Proof.
  intros Hrun.
  assert (stopsSent e + flagUp s' + length (turns s)
          <= flagUp s + length (turns s')) as H.
  { revert s s' e Hrun.
    induction evs as [|ev evs IH]; intros s s' e Hrun; simpl in Hrun.
    - simplify_eq. simpl. lia.
    - destruct (step s ev) as [[s1 e1]|] eqn:Hstep; [|done].
      destruct (run s1 evs) as [[s2 e2]|] eqn:Hrest; [|done].
      simplify_eq.
      pose proof (step_stop_per_turn _ _ _ _ Hstep).
      pose proof (IH _ _ _ Hrest).
      rewrite stopsSent_app. lia. }
  split; [exact H|].
  intros ->. simpl in H. lia.
Qed.

Lemma stop_at_most_once_per_turn_witness :
  run connection
    [RecognizeData (partialData "wa");
     RecognizeData (finalData "wait");
     RecognizeData (finalData "stop")]
  = Some
      ({| conversationHistory :=
            [Message user (str "wait"); Message user (str "stop")];
          isAiSpeaking := true; isInterrupted := false; wsOpen := true;
          streamLive := true; greeting := GreetingSynth;
          turns := [AwaitClaude; AwaitClaude] |},
       [Send StopPlaying; Push (Message user (str "wait"));
        CallClaude [Message user (str "wait")];
        Send StopPlaying; Push (Message user (str "stop"));
        CallClaude [Message user (str "wait"); Message user (str "stop")]])
  /\ 2 <= 1 + 2.
Proof.
  assert (run connection
    [RecognizeData (partialData "wa");
     RecognizeData (finalData "wait");
     RecognizeData (finalData "stop")]
  = Some
      ({| conversationHistory :=
            [Message user (str "wait"); Message user (str "stop")];
          isAiSpeaking := true; isInterrupted := false; wsOpen := true;
          streamLive := true; greeting := GreetingSynth;
          turns := [AwaitClaude; AwaitClaude] |},
       [Send StopPlaying; Push (Message user (str "wait"));
        CallClaude [Message user (str "wait")];
        Send StopPlaying; Push (Message user (str "stop"));
        CallClaude [Message user (str "wait"); Message user (str "stop")]]))
    as Hrun by (vm_compute; reflexivity).
  split; [exact Hrun|].
  exact (proj2 (stop_at_most_once_per_turn _ _ _ _ Hrun) eq_refl).
Defined.

(** A step sends audio only by retiring an invocation that had not
    returned, or the greeting. *)
Lemma step_audio_per_turn s ev s' e :
  step s ev = Some (s', e) ->
  length (audioSent e) + audioPending s' + length (turns s)
  <= audioPending s + length (turns s').
Proof.
  destruct s as [h a i w l g ts]. unfold audioPending.
  destruct ev; simpl; intros Hstep; step_cases;
    rewrite ?length_insert, ?List.filter_app, ?length_app; simpl;
    try lia;
    match goal with
    | H : ts !! ?i = Some ?y
      |- context [List.filter notReturned (<[?i := ?x]> ts)] =>
        pose proof (filter_insert_length notReturned ts i x y H) as Hc;
        simpl in Hc; lia
    end.
Qed.

(** X5. Along every run each invocation of [processTranscript] sends at
    most one audio payload, and so does the greeting: the number of audio
    payloads sent is bounded by the number of invocations that had not
    returned at the start or were started during the run, plus one for a
    greeting still being synthesized.  From the connection on that is at
    most one payload per turn started, plus the greeting. *)
Theorem audio_at_most_once_per_turn (evs : list event) (s s' : session)
    (e : list effect) :
  run s evs = Some (s', e) ->
  length (audioSent e) + audioPending s' + length (turns s)
  <= audioPending s + length (turns s') /\
  (s = connection -> length (audioSent e) <= 1 + length (turns s')).
Proof.
  intros Hrun.
  assert (length (audioSent e) + audioPending s' + length (turns s)
          <= audioPending s + length (turns s')) as H.
  { revert s s' e Hrun.
    induction evs as [|ev evs IH]; intros s s' e Hrun; simpl in Hrun.
    - simplify_eq. simpl. lia.
    - destruct (step s ev) as [[s1 e1]|] eqn:Hstep; [|done].
      destruct (run s1 evs) as [[s2 e2]|] eqn:Hrest; [|done].
      simplify_eq.
      pose proof (step_audio_per_turn _ _ _ _ Hstep).
      pose proof (IH _ _ _ Hrest).
      rewrite audioSent_app, length_app. lia. }
  split; [exact H|].
  intros ->. unfold audioPending in H. simpl in H. lia.
Qed.

Lemma audio_at_most_once_per_turn_witness :
  run connection
    [GreetingSynthSettled (Fulfilled [Byte.x4f]); GreetingThen;
     RecognizeData (finalData "hi");
     ClaudeSettled 0 (Fulfilled (str "hello"));
     SynthSettled 0 (Fulfilled [Byte.x01])]
  = Some
      ({| conversationHistory :=
            [Message user (str "hi"); Message assistant (str "hello")];
          isAiSpeaking := true; isInterrupted := false; wsOpen := true;
          streamLive := true; greeting := GreetingDone;
          turns := [Returned] |},
       [Send (Audio [Byte.x4f]); Push (Message user (str "hi"));
        CallClaude [Message user (str "hi")];
        Push (Message assistant (str "hello")); CallSynth (str "hello");
        Send (Audio [Byte.x01])])
  /\ 2 <= 1 + 1.
Proof.
  assert (run connection
    [GreetingSynthSettled (Fulfilled [Byte.x4f]); GreetingThen;
     RecognizeData (finalData "hi");
     ClaudeSettled 0 (Fulfilled (str "hello"));
     SynthSettled 0 (Fulfilled [Byte.x01])]
  = Some
      ({| conversationHistory :=
            [Message user (str "hi"); Message assistant (str "hello")];
          isAiSpeaking := true; isInterrupted := false; wsOpen := true;
          streamLive := true; greeting := GreetingDone;
          turns := [Returned] |},
       [Send (Audio [Byte.x4f]); Push (Message user (str "hi"));
        CallClaude [Message user (str "hi")];
        Push (Message assistant (str "hello")); CallSynth (str "hello");
        Send (Audio [Byte.x01])])) as Hrun by (vm_compute; reflexivity).
  split; [exact Hrun|].
  exact (proj2 (audio_at_most_once_per_turn _ _ _ _ Hrun) eq_refl).
Defined.

Lemma startsWithUser_app h m :
  startsWithUser h -> (h = [] -> msgRole m = user) ->
  startsWithUser (h ++ [m]).
Proof. destruct h; simpl; auto. Qed.

Lemma step_historyShape s ev s' e :
  step s ev = Some (s', e) -> historyShape s -> historyShape s'.
Proof.
  destruct s as [h a i w l g ts].
  unfold historyShape, userEntries, assistantEntries, awaitingClaude.
  simpl. intros Hstep (Hu & Ha & Hs & Hf).
  destruct ev; step_cases;
    rewrite ?length_insert, ?List.filter_app, ?length_app; simpl;
    repeat match goal with
    | H : ts !! ?i = Some ?y
      |- context [List.filter isAwaitClaude (<[?i := ?x]> ts)] =>
        pose proof (filter_insert_length isAwaitClaude ts i x y H);
        generalize dependent (List.filter isAwaitClaude (<[i := x]> ts));
        intros
    end; simpl in *;
    repeat split; try lia; try done;
    try (apply startsWithUser_app; [done|]; intros ->; simpl in *;
         try done;
         match goal with
         | H : ?ts !! _ = Some _, Hl : 0 = length ?ts |- _ =>
             destruct ts; [done|discriminate Hl]
         end);
    try (apply Forall_app; split; [done|];
         apply Forall_singleton; unfold userTextUsable; simpl;
         intros Hrole;
         first [done
               | match goal with
                 | H : negb ?b = false |- ?b = true => by destruct b
                 end]).
Qed.

Lemma connection_historyShape : historyShape connection.
Proof.
  unfold historyShape, userEntries, assistantEntries, awaitingClaude.
  simpl. split; [done|]. split; [lia|]. split; [done|constructor].
Qed.

Lemma reachable_historyShape s : reachable s -> historyShape s.
Proof.
  induction 1 as [|s ev s' e _ IH Hstep].
  - apply connection_historyShape.
  - exact (step_historyShape _ _ _ _ Hstep IH).
Qed.

(** X6. In every reachable session the history has exactly one caller
    entry for each turn started, never more agent entries than caller
    entries, starts with a caller entry unless it is empty, and every
    caller entry has text left after [trim]. *)
Theorem history_shape (s : session) :
  reachable s ->
  userEntries (conversationHistory s) = length (turns s) /\
  assistantEntries (conversationHistory s)
  <= userEntries (conversationHistory s) /\
  startsWithUser (conversationHistory s) /\
  Forall userTextUsable (conversationHistory s).
Proof.
  intros Hr. destruct (reachable_historyShape s Hr) as (Hu & Ha & Hs & Hf).
  repeat split; try done. lia.
Qed.

Lemma history_shape_witness :
  reachable oneTurnWaiting /\
  userEntries (conversationHistory oneTurnWaiting)
  = length (turns oneTurnWaiting).
Proof.
  split; [exact oneTurnWaiting_reachable|].
  exact (proj1 (history_shape oneTurnWaiting oneTurnWaiting_reachable)).
Defined.

Lemma run_history evs : forall s s' e,
  run s evs = Some (s', e) ->
  conversationHistory s' = conversationHistory s ++ pushes e.
Proof.
  induction evs as [|ev evs IH]; intros s s' e Hrun; simpl in Hrun.
  - simplify_eq. simpl. by rewrite app_nil_r.
  - destruct (step s ev) as [[s1 e1]|] eqn:Hstep; [|done].
    destruct (run s1 evs) as [[s2 e2]|] eqn:Hrest; [|done].
    simplify_eq.
    rewrite (IH _ _ _ Hrest), (step_history _ _ _ _ Hstep).
    by rewrite pushes_app, app_assoc.
Qed.

Lemma claudeCalls_app e1 e2 :
  claudeCalls (e1 ++ e2) = claudeCalls e1 ++ claudeCalls e2.
Proof. apply omap_app. Qed.




(** With the flag down, a step that is not the handling of a final
    result leaves the flags and the history alone and starts nothing. *)
Lemma step_flag_down s ev s' e :
  step s ev = Some (s', e) -> isAiSpeaking s = false ->
  ~ isFinalData ev ->
  isAiSpeaking s' = false /\ isInterrupted s' = isInterrupted s /\
  pushes e = [] /\ claudeCalls e = [] /\
  length (turns s') = length (turns s) /\
  (greeting s <> GreetingSynth ->
   greeting s' <> GreetingSynth /\ sends e = []) /\
  stopsSent e = 0.
Proof.
  destruct s as [h a i w l g ts]. simpl.
  destruct ev; simpl; intros Hstep -> Hnf;
    try (step_cases; rewrite ?length_insert; repeat split; done).
  destruct l; [|done]. simplify_eq.
  unfold onData in *.
  destruct (dataIsFinal d) as [[]|]; [done| |];
    step_cases; repeat split; done.
Qed.

(** X8. While [isAiSpeaking] is down and no final result arrives, the
    session is quiet: whatever partial results arrive and whichever
    pending invocations resume or fail, the flags stay as they are,
    nothing is pushed onto the history, the language model is not called,
    no turn starts and no stop command is sent; and unless the greeting
    is still being synthesized, nothing at all is sent on the socket. *)
Theorem flag_down_quiet (evs : list event) (s s' : session)
    (e : list effect) :
  isAiSpeaking s = false -> run s evs = Some (s', e) ->
  Forall (fun ev => ~ isFinalData ev) evs ->
  isAiSpeaking s' = false /\ isInterrupted s' = isInterrupted s /\
  conversationHistory s' = conversationHistory s /\
  pushes e = [] /\ claudeCalls e = [] /\
  length (turns s') = length (turns s) /\
  stopsSent e = 0 /\
  (greeting s <> GreetingSynth -> sends e = []).
Proof.
  intros Ha Hrun Hnf.
  assert (isAiSpeaking s' = false /\ isInterrupted s' = isInterrupted s /\
          pushes e = [] /\ claudeCalls e = [] /\
          length (turns s') = length (turns s) /\ stopsSent e = 0 /\
          (greeting s <> GreetingSynth -> sends e = [])) as H.
  { revert s s' e Ha Hrun Hnf.
    induction evs as [|ev evs IH]; intros s s' e Ha Hrun Hnf;
      simpl in Hrun.
    - by simplify_eq.
    - destruct (step s ev) as [[s1 e1]|] eqn:Hstep; [|done].
      destruct (run s1 evs) as [[s2 e2]|] eqn:Hrest; [|done].
      simplify_eq. inversion Hnf as [|? ? Hev Hevs]; subst.
      destruct (step_flag_down _ _ _ _ Hstep Ha Hev)
        as (Ha1 & Hi1 & Hp1 & Hc1 & Hl1 & Hg1 & Hs1).
      destruct (IH _ _ _ Ha1 Hrest Hevs)
        as (Ha2 & Hi2 & Hp2 & Hc2 & Hl2 & Hs2 & Hg2).
      rewrite pushes_app, claudeCalls_app, stopsSent_app, sends_app.
      rewrite Hp1, Hp2, Hc1, Hc2, Hs1, Hs2.
      repeat split; try done; try congruence.
      intros Hg. destruct (Hg1 Hg) as [Hg' ->]. by rewrite (Hg2 Hg'). }
  destruct H as (H1 & H2 & H3 & H4 & H5 & H6 & H7).
  repeat split; try done.
  rewrite (run_history _ _ _ _ Hrun), H3. by rewrite app_nil_r.
Qed.

Lemma flag_down_quiet_witness :
  isAiSpeaking (fst (interruptAi oneTurnWaiting)) = false /\
  run (fst (interruptAi oneTurnWaiting))
    [RecognizeData (partialData "wait a");
     ClaudeSettled 0 (Fulfilled (str "hello"))]
  = Some
      ({| conversationHistory := [Message user (str "hi")];
          isAiSpeaking := false; isInterrupted := true; wsOpen := true;
          streamLive := true; greeting := GreetingSynth;
          turns := [Returned] |}, []) /\
  pushes [] = [].
Proof.
  assert (run (fst (interruptAi oneTurnWaiting))
    [RecognizeData (partialData "wait a");
     ClaudeSettled 0 (Fulfilled (str "hello"))]
  = Some
      ({| conversationHistory := [Message user (str "hi")];
          isAiSpeaking := false; isInterrupted := true; wsOpen := true;
          streamLive := true; greeting := GreetingSynth;
          turns := [Returned] |}, [])) as Hrun by (vm_compute; reflexivity).
  split; [reflexivity|]. split; [exact Hrun|].
  refine (proj1 (proj2 (proj2 (proj2
    (flag_down_quiet _ (fst (interruptAi oneTurnWaiting)) _ _
       eq_refl Hrun _))))).
  repeat constructor; simpl; [discriminate|tauto].
Defined.

(** X9. The [catch] block of one invocation cancels every other: after a
    language-model or synthesizer call of invocation [i] has failed,
    another invocation that resumes next, with its own call fulfilled,
    finds the flag down at its checkpoint and returns without pushing its
    reply, calling the synthesizer or sending its audio. *)
Theorem failure_cancels_other_turns (s s1 : session) (e1 : list effect)
    (i j : nat) (reply : jsstring) (payload : audio) :
  i <> j ->
  step s (ClaudeSettled i Rejected) = Some (s1, e1) \/
  step s (SynthSettled i Rejected) = Some (s1, e1) ->
  (turns s !! j = Some AwaitClaude ->
   step s1 (ClaudeSettled j (Fulfilled reply))
   = Some (set_turns (<[j := Returned]> (turns s1)) s1, [])) /\
  (forall rj, turns s !! j = Some (AwaitSynth rj) ->
   step s1 (SynthSettled j (Fulfilled payload))
   = Some (set_turns (<[j := Returned]> (turns s1)) s1, [])).
Proof.
  intros Hij Hfail.
  assert (isAiSpeaking s1 = false /\ turns s1 !! j = turns s !! j)
    as [Ha Hj].
  { destruct s as [h a k w l g ts].
    destruct Hfail as [Hstep|Hstep]; step_cases;
      by rewrite list_lookup_insert_ne. }
  split.
  - intros Hjs. apply checkpointA_flag_down; [congruence|done].
  - intros rj Hjs. apply (checkpointB_flag_down _ _ rj); [congruence|done].
Qed.

Lemma failure_cancels_other_turns_witness :
  step (turnStarted (str "b") oneTurnWaiting) (ClaudeSettled 0 Rejected)
  = Some
      ({| conversationHistory :=
            [Message user (str "hi"); Message user (str "b")];
          isAiSpeaking := false; isInterrupted := false; wsOpen := true;
          streamLive := true; greeting := GreetingSynth;
          turns := [Returned; AwaitClaude] |}, [ConsoleError]) /\
  step {| conversationHistory :=
            [Message user (str "hi"); Message user (str "b")];
          isAiSpeaking := false; isInterrupted := false; wsOpen := true;
          streamLive := true; greeting := GreetingSynth;
          turns := [Returned; AwaitClaude] |}
       (ClaudeSettled 1 (Fulfilled (str "hello")))
  = Some
      ({| conversationHistory :=
            [Message user (str "hi"); Message user (str "b")];
          isAiSpeaking := false; isInterrupted := false; wsOpen := true;
          streamLive := true; greeting := GreetingSynth;
          turns := [Returned; Returned] |}, []).
Proof.
  assert (step (turnStarted (str "b") oneTurnWaiting)
            (ClaudeSettled 0 Rejected)
  = Some
      ({| conversationHistory :=
            [Message user (str "hi"); Message user (str "b")];
          isAiSpeaking := false; isInterrupted := false; wsOpen := true;
          streamLive := true; greeting := GreetingSynth;
          turns := [Returned; AwaitClaude] |}, [ConsoleError]))
    as Hstep by (vm_compute; reflexivity).
  split; [exact Hstep|].
  refine (proj1 (failure_cancels_other_turns _ _ _ 0 1 (str "hello") []
                   _ (or_introl Hstep)) _).
  - discriminate.
  - reflexivity.
Defined.

(** X10. A turn that runs to the end, with both calls fulfilled and
    nothing in between, pushes the caller's utterance and the reply, sends
    the audio if the socket is open, and returns with [isAiSpeaking] still
    set: nothing clears the flag when a reply has been delivered.  The
    next caller event with text, partial or final, therefore starts by
    signalling cancellation. *)
Theorem delivered_turn_leaves_flag_up (s : session) (t reply : jsstring)
    (payload : audio) :
  truthy (trim t) = true ->
  pipelineRun t (Fulfilled reply) (Fulfilled payload) s
  = ({| conversationHistory :=
          conversationHistory s
          ++ [Message user t; Message assistant reply];
        isAiSpeaking := true; isInterrupted := isInterrupted s;
        wsOpen := wsOpen s; streamLive := streamLive s;
        greeting := greeting s; turns := turns s ++ [Returned] |},
     [Push (Message user t);
      CallClaude (conversationHistory s ++ [Message user t]);
      Push (Message assistant reply); CallSynth reply]
     ++ (if wsOpen s then [Send (Audio payload)] else [])) /\
  forall d, hasText d ->
    exists e',
      snd (onData d
             (fst (pipelineRun t (Fulfilled reply) (Fulfilled payload) s)))
      = (if wsOpen s then [Send StopPlaying] else []) ++ e'.
Proof.
  intros Ht.
  assert (pipelineRun t (Fulfilled reply) (Fulfilled payload) s
  = ({| conversationHistory :=
          conversationHistory s
          ++ [Message user t; Message assistant reply];
        isAiSpeaking := true; isInterrupted := isInterrupted s;
        wsOpen := wsOpen s; streamLive := streamLive s;
        greeting := greeting s; turns := turns s ++ [Returned] |},
     [Push (Message user t);
      CallClaude (conversationHistory s ++ [Message user t]);
      Push (Message assistant reply); CallSynth reply]
     ++ (if wsOpen s then [Send (Audio payload)] else []))) as Heq.
  { destruct s as [h a i w l g ts]. unfold pipelineRun, andThen. simpl.
    unfold processTranscript. rewrite Ht. simpl.
    unfold_cmds. unfold resume, step. simpl.
    rewrite (lookup_app_r ts), Nat.sub_diag by lia. simpl.
    unfold_cmds.
    rewrite list_lookup_insert_eq by (rewrite length_app; simpl; lia).
    unfold_cmds.
    rewrite ?(insert_app_r_alt ts) by lia. rewrite ?Nat.sub_diag.
    destruct w; simpl;
      rewrite ?(insert_app_r_alt ts) by lia; rewrite ?Nat.sub_diag; simpl;
      by rewrite <- app_assoc. }
  split; [exact Heq|].
  intros d Hd. rewrite Heq. cbn [fst].
  match goal with
  | |- context [onData d ?s1] =>
      destruct (onData_text_speaking d s1 eq_refl Hd) as [e' He']
  end.
  exists e'. exact He'.
Qed.

Lemma delivered_turn_leaves_flag_up_witness :
  truthy (trim (str "hi")) = true /\
  pipelineRun (str "hi") (Fulfilled (str "hello"))
    (Fulfilled [Byte.x01]) greeted
  = ({| conversationHistory :=
          [Message user (str "hi"); Message assistant (str "hello")];
        isAiSpeaking := true; isInterrupted := false; wsOpen := true;
        streamLive := true; greeting := GreetingDone;
        turns := [Returned] |},
     [Push (Message user (str "hi"));
      CallClaude [Message user (str "hi")];
      Push (Message assistant (str "hello")); CallSynth (str "hello");
      Send (Audio [Byte.x01])]).
Proof.
  assert (truthy (trim (str "hi")) = true) as Ht
    by (vm_compute; reflexivity).
  split; [exact Ht|].
  exact (proj1 (delivered_turn_leaves_flag_up greeted (str "hi")
                  (str "hello") [Byte.x01] Ht)).
Defined.

Lemma streamWrites_app e1 e2 :
  streamWrites (e1 ++ e2) = streamWrites e1 ++ streamWrites e2.
Proof. apply omap_app. Qed.

(** The ['message'] handler is the only writer of the recognizer stream,
    and it touches nothing in the closure. *)
Lemma step_streamWrites s ev s' e :
  step s ev = Some (s', e) ->
  streamWrites e = chunksReceived [ev] /\
  (forall chunk, ev = WsMessage chunk -> s' = s).
Proof.
  destruct s as [h a i w l g ts].
  destruct ev; intros Hstep; step_cases; split; try done;
    intros chunk' [= <-]; done.
Qed.

(** X11. Along every run the chunks written to the recognizer stream are
    exactly the chunks received on the socket, unchanged and in the order
    of arrival, whatever else happens in between. *)
Theorem audio_forwarded_in_order (evs : list event) (s s' : session)
    (e : list effect) :
  run s evs = Some (s', e) -> streamWrites e = chunksReceived evs.
Proof.
  revert s s' e.
  induction evs as [|ev evs IH]; intros s s' e Hrun; simpl in Hrun.
  - by simplify_eq.
  - destruct (step s ev) as [[s1 e1]|] eqn:Hstep; [|done].
    destruct (run s1 evs) as [[s2 e2]|] eqn:Hrest; [|done].
    simplify_eq.
    rewrite streamWrites_app, (IH _ _ _ Hrest).
    rewrite (proj1 (step_streamWrites _ _ _ _ Hstep)).
    unfold chunksReceived. simpl. by destruct ev.
Qed.

Lemma audio_forwarded_in_order_witness :
  run connection
    [WsMessage [Byte.x01]; RecognizeData (partialData "wait");
     WsMessage [Byte.x02; Byte.x03]]
  = Some (greetingInterrupted,
          [StreamWrite [Byte.x01]; Send StopPlaying;
           StreamWrite [Byte.x02; Byte.x03]]) /\
  streamWrites [StreamWrite [Byte.x01]; Send StopPlaying;
                StreamWrite [Byte.x02; Byte.x03]]
  = [[Byte.x01]; [Byte.x02; Byte.x03]].
Proof.
  assert (run connection
    [WsMessage [Byte.x01]; RecognizeData (partialData "wait");
     WsMessage [Byte.x02; Byte.x03]]
  = Some (greetingInterrupted,
          [StreamWrite [Byte.x01]; Send StopPlaying;
           StreamWrite [Byte.x02; Byte.x03]])) as Hrun
    by (vm_compute; reflexivity).
  split; [exact Hrun|].
  exact (audio_forwarded_in_order _ _ _ _ Hrun).
Defined.

(** X12. The [.then] callback of the greeting cancels whatever turn is
    pending when it runs: it clears [isAiSpeaking] whichever turn raised
    it, so an invocation that resumes next, with its call fulfilled, finds
    the flag down at its checkpoint and returns without pushing its reply
    or sending its audio. *)
Theorem greeting_completion_cancels_turns (s s1 : session)
    (e1 : list effect) (j : nat) (reply : jsstring) (payload : audio) :
  step s GreetingThen = Some (s1, e1) ->
  e1 = [] /\ isAiSpeaking s1 = false /\
  (turns s !! j = Some AwaitClaude ->
   step s1 (ClaudeSettled j (Fulfilled reply))
   = Some (set_turns (<[j := Returned]> (turns s1)) s1, [])) /\
  (forall rj, turns s !! j = Some (AwaitSynth rj) ->
   step s1 (SynthSettled j (Fulfilled payload))
   = Some (set_turns (<[j := Returned]> (turns s1)) s1, [])).
Proof.
  intros Hstep.
  assert (e1 = [] /\ isAiSpeaking s1 = false /\ turns s1 = turns s)
    as (He & Ha & Hts).
  { destruct s as [h a k w l g ts]. step_cases; done. }
  split; [done|]. split; [done|]. split.
  - intros Hj. apply checkpointA_flag_down; [by rewrite Hts|done].
  - intros rj Hj.
    apply (checkpointB_flag_down _ _ rj); [by rewrite Hts|done].
Qed.

Lemma greeting_completion_cancels_turns_witness :
  step (set_greeting GreetingSettled oneTurnWaiting) GreetingThen
  = Some
      ({| conversationHistory := [Message user (str "hi")];
          isAiSpeaking := false; isInterrupted := false; wsOpen := true;
          streamLive := true; greeting := GreetingDone;
          turns := [AwaitClaude] |}, []) /\
  isAiSpeaking
    {| conversationHistory := [Message user (str "hi")];
       isAiSpeaking := false; isInterrupted := false; wsOpen := true;
       streamLive := true; greeting := GreetingDone;
       turns := [AwaitClaude] |} = false.
Proof.
  assert (step (set_greeting GreetingSettled oneTurnWaiting) GreetingThen
  = Some
      ({| conversationHistory := [Message user (str "hi")];
          isAiSpeaking := false; isInterrupted := false; wsOpen := true;
          streamLive := true; greeting := GreetingDone;
          turns := [AwaitClaude] |}, [])) as Hstep
    by (vm_compute; reflexivity).
  split; [exact Hstep|].
  exact (proj1 (proj2 (greeting_completion_cancels_turns _ _ _ 0
                         (str "hello") [] Hstep))).
Defined.

Lemma synthCalls_app e1 e2 :
  synthCalls (e1 ++ e2) = synthCalls e1 ++ synthCalls e2.
Proof. apply omap_app. Qed.

(** A step calls the synthesizer for the reply it pushes and the language
    model for the utterance it pushes, and for nothing else. *)
Lemma step_calls_match_pushes s ev s' e :
  step s ev = Some (s', e) ->
  synthCalls e = map content (List.filter isAssistant (pushes e)) /\
  length (claudeCalls e) = userEntries (pushes e).
Proof.
  destruct s as [h a i w l g ts].
  destruct ev; intros Hstep; step_cases; done.
Qed.

(** X13. Along every run the texts given to the synthesizer are exactly
    the contents of the agent entries pushed onto the history, in the same
    order, and the language model is called exactly once for each caller
    entry pushed: a reply is never spoken without being recorded, and
    never recorded without being submitted for synthesis. *)
Theorem calls_match_pushes (evs : list event) (s s' : session)
    (e : list effect) :
  run s evs = Some (s', e) ->
  synthCalls e = map content (List.filter isAssistant (pushes e)) /\
  length (claudeCalls e) = userEntries (pushes e).
Proof.
  revert s s' e.
  induction evs as [|ev evs IH]; intros s s' e Hrun; simpl in Hrun.
  - by simplify_eq.
  - destruct (step s ev) as [[s1 e1]|] eqn:Hstep; [|done].
    destruct (run s1 evs) as [[s2 e2]|] eqn:Hrest; [|done].
    simplify_eq.
    destruct (step_calls_match_pushes _ _ _ _ Hstep) as [H1 H2].
    destruct (IH _ _ _ Hrest) as [H3 H4].
    unfold userEntries in *.
    rewrite synthCalls_app, claudeCalls_app, pushes_app.
    rewrite !List.filter_app, map_app, !length_app.
    by rewrite H1, H2, H3, H4.
Qed.

Lemma calls_match_pushes_witness :
  run greeted
    [RecognizeData (finalData "hi");
     ClaudeSettled 0 (Fulfilled (str "hello"))]
  = Some
      ({| conversationHistory :=
            [Message user (str "hi"); Message assistant (str "hello")];
          isAiSpeaking := true; isInterrupted := false; wsOpen := true;
          streamLive := true; greeting := GreetingDone;
          turns := [AwaitSynth (str "hello")] |},
       [Push (Message user (str "hi"));
        CallClaude [Message user (str "hi")];
        Push (Message assistant (str "hello")); CallSynth (str "hello")])
  /\ [str "hello"] = [str "hello"].
Proof.
  assert (run greeted
    [RecognizeData (finalData "hi");
     ClaudeSettled 0 (Fulfilled (str "hello"))]
  = Some
      ({| conversationHistory :=
            [Message user (str "hi"); Message assistant (str "hello")];
          isAiSpeaking := true; isInterrupted := false; wsOpen := true;
          streamLive := true; greeting := GreetingDone;
          turns := [AwaitSynth (str "hello")] |},
       [Push (Message user (str "hi"));
        CallClaude [Message user (str "hi")];
        Push (Message assistant (str "hello")); CallSynth (str "hello")]))
    as Hrun by (vm_compute; reflexivity).
  split; [exact Hrun|].
  exact (proj1 (calls_match_pushes _ _ _ _ Hrun)).
Defined.
